(** * Forward pass of the "Neural networks with PyTorch" exercise notebook

    A shallow embedding of the code cells of
    [Part 2 - Neural Networks in PyTorch (Exercises).ipynb]:
    the hand-written two-layer network ([activation], [h], [out]), the
    hand-written [softmax], the [Network] classes and the [nn.Sequential]
    model, together with the tensor operations of the library they call.

    Numbers are idealised: a tensor entry is a real number, so rounding is
    not modelled.  Two floating-point effects that matter to the notebook
    are kept explicit: the quotient of a tensor division whose divisor is
    zero is not a finite number ([None] below), and the finite range of the
    [float32] format is available as a bound on real values.  The
    hand-written [softmax], which needs sums and quotients only, is given a
    second time in binary32 arithmetic (module [Float32]), where the effect
    of rounding and overflow on it can be computed. *)

From Stdlib Require Import String.
From Stdlib Require SpecFloat.
From Stdlib Require Import Reals Lra Lia List Arith ZArith Bool.
Import ListNotations.

Local Open Scope R_scope.

Set Implicit Arguments.

(* ================================================================== *)
(** * The tensor operations used by the notebook *)
(* ================================================================== *)

Module Torch.

(** The [RuntimeError]s that the operations below raise.  Each one carries
    the sizes that the library prints in its message. *)
Inductive RuntimeError : Type :=
| SizeMismatch (m1 m2 : nat * nat)
    (* torch.mm: "size mismatch, m1: [a x b], m2: [c x d]" *)
| BroadcastMismatch (a b : nat * nat)
    (* "The size of tensor a (..) must match the size of tensor b (..)" *)
| AmbiguousView (numel : nat)
    (* view(0, -1): "the unspecified dimension size -1 can be any value" *)
| InvalidView (numel n : nat)
    (* "shape '[n, -1]' is invalid for input of size numel" *)
| DimOutOfRange (dim : nat).
    (* "Dimension out of range" *)

Inductive result (A : Type) : Type :=
| Ok (a : A)
| Raise (e : RuntimeError).

Arguments Ok {A} a.
Arguments Raise {A} e.

Definition bind {A B : Type} (r : result A) (k : A -> result B) : result B :=
  match r with
  | Ok a => k a
  | Raise e => Raise e
  end.

Notation "x <- r ;; k" := (bind r (fun x => k))
  (at level 61, r at next level, right associativity).

(** A two-dimensional tensor: its shape and its entries.  [item t i j] is
    meaningful for [i < rows t] and [j < cols t] only. *)
Record tensor (A : Type) : Type := Tensor {
  shape : nat * nat;
  item : nat -> nat -> A
}.

(** A one-dimensional tensor. *)
Record tensor1 : Type := Tensor1 {
  len : nat;
  item1 : nat -> R
}.

Definition rows {A} (t : tensor A) : nat := fst (shape t).
Definition cols {A} (t : tensor A) : nat := snd (shape t).

(** Two tensors are the same tensor when they have the same shape and the
    same entries inside it. *)
Definition tensor_eq {A} (a b : tensor A) : Prop :=
  shape a = shape b /\
  forall i j, (i < rows a)%nat -> (j < cols a)%nat -> item a i j = item b i j.

(** A tensor written out as a list of rows. *)
Definition of_rows (n m : nat) (l : list (list R)) : tensor R :=
  Tensor (n, m) (fun i j => nth j (nth i l []) 0).

(** [torch.zeros(n, m)] *)
Definition zeros (n m : nat) : tensor R := Tensor (n, m) (fun _ _ => 0).

(** Two computations agree when they return the same tensor or raise the
    same error. *)
Definition result_eq {A} (r1 r2 : result (tensor A)) : Prop :=
  match r1, r2 with
  | Ok a, Ok b => tensor_eq a b
  | Raise e1, Raise e2 => e1 = e2
  | _, _ => False
  end.

(** [f 0 + f 1 + ... + f (n-1)] *)
Fixpoint rsum (n : nat) (f : nat -> R) : R :=
  match n with
  | O => 0
  | S k => rsum k f + f k
  end.

Definition map_tensor {A B} (f : A -> B) (t : tensor A) : tensor B :=
  Tensor (shape t) (fun i j => f (item t i j)).

(** [torch.mm(a, b)] *)
Definition mm (a b : tensor R) : result (tensor R) :=
  if (cols a =? rows b)%nat
  then Ok (Tensor (rows a, cols b)
             (fun i j => rsum (cols a) (fun k => item a i k * item b k j)))
  else Raise (SizeMismatch (shape a) (shape b)).

(** Broadcasting of one dimension: equal sizes, or one of them is 1. *)
Definition broadcast_dim (a b : nat) : option nat :=
  if (a =? b)%nat then Some a
  else if (a =? 1)%nat then Some b
  else if (b =? 1)%nat then Some a
  else None.

Definition broadcast_shape (a b : nat * nat) : option (nat * nat) :=
  match broadcast_dim (fst a) (fst b), broadcast_dim (snd a) (snd b) with
  | Some n, Some m => Some (n, m)
  | _, _ => None
  end.

(** The entry of [t] that broadcasting puts at position [(i, j)]. *)
Definition bitem {A} (t : tensor A) (i j : nat) : A :=
  item t (if (rows t =? 1)%nat then O else i)
         (if (cols t =? 1)%nat then O else j).

Definition broadcast2 {A B C} (f : A -> B -> C) (a : tensor A) (b : tensor B)
  : result (tensor C) :=
  match broadcast_shape (shape a) (shape b) with
  | Some s => Ok (Tensor s (fun i j => f (bitem a i j) (bitem b i j)))
  | None => Raise (BroadcastMismatch (shape a) (shape b))
  end.

(** [a + b] on tensors *)
Definition add (a b : tensor R) : result (tensor R) := broadcast2 Rplus a b.

(** The quotient of two entries.  Dividing by zero gives no finite number
    (the library returns [inf] or [nan]); that outcome is [None]. *)
Definition fdiv (x y : R) : option R :=
  if Req_dec_T y 0 then None else Some (x / y).

(** [a / b] on tensors *)
Definition div (a b : tensor R) : result (tensor (option R)) :=
  broadcast2 fdiv a b.

(** [-x], [torch.exp(x)], [c + x], [c / x] and [c * x] for a Python number
    [c].  In the one place where the notebook writes [c / x] the divisor is
    at least 1 (lemma [activation_divisor_pos]), so the quotient is taken
    in the reals.  These are the exact operations: in [float32] a result
    is rounded, and saturates for entries of large magnitude, so of a
    strict inequality between results only the non-strict one carries
    over to the code. *)
Definition neg (x : tensor R) : tensor R := map_tensor Ropp x.
Definition texp (x : tensor R) : tensor R := map_tensor exp x.
Definition radd (c : R) (x : tensor R) : tensor R := map_tensor (Rplus c) x.
Definition rtruediv (c : R) (x : tensor R) : tensor R := map_tensor (Rdiv c) x.
Definition rmul (c : R) (x : tensor R) : tensor R := map_tensor (Rmult c) x.

(** [torch.sum(x, dim=1)]: the sum of every row, a one-dimensional tensor.
    The sum is the exact one; [Float32.sum_dim1] is the rounded one. *)
Definition sum_dim1 (x : tensor R) : tensor1 :=
  Tensor1 (rows x) (fun i => rsum (cols x) (fun k => item x i k)).

(** [t.view(n, -1)] on a one-dimensional tensor: the second size is inferred
    from the number of elements. *)
Definition view (t : tensor1) (n : nat) : result (tensor R) :=
  match n with
  | O => match len t with
         | O => Raise (AmbiguousView O)
         | S _ => Raise (InvalidView (len t) O)
         end
  | S _ =>
      if (len t mod n =? 0)%nat
      then Ok (Tensor (n, len t / n)%nat
                 (fun i j => item1 t (i * (len t / n) + j)%nat))
      else Raise (InvalidView (len t) n)
  end.

(** A one-dimensional tensor lines up with the last dimension. *)
Definition unsqueeze0 (b : tensor1) : tensor R :=
  Tensor (1%nat, len b) (fun _ j => item1 b j).

Definition transpose (w : tensor R) : tensor R :=
  Tensor (cols w, rows w) (fun i j => item w j i).

(** A four-dimensional tensor, such as a batch of images
    [(batch, channel, height, width)]. *)
Record tensor4 : Type := Tensor4 {
  shape4 : nat * nat * nat * nat;
  item4 : nat -> nat -> nat -> nat -> R
}.

Definition size0 (t : tensor4) : nat := fst (fst (fst (shape4 t))).
Definition size1 (t : tensor4) : nat := snd (fst (fst (shape4 t))).
Definition size2 (t : tensor4) : nat := snd (fst (shape4 t)).
Definition size3 (t : tensor4) : nat := snd (shape4 t).

Definition numel4 (t : tensor4) : nat :=
  (size0 t * size1 t * size2 t * size3 t)%nat.

(** The [k]-th element of a contiguous four-dimensional tensor, in storage
    order (the last index moves fastest). *)
Definition flat4 (t : tensor4) (k : nat) : R :=
  item4 t (k / (size1 t * size2 t * size3 t))%nat
          ((k / (size2 t * size3 t)) mod size1 t)%nat
          ((k / size3 t) mod size2 t)%nat
          (k mod size3 t)%nat.

(** [t.view(n, -1)] on a four-dimensional tensor. *)
Definition view4 (t : tensor4) (n : nat) : result (tensor R) :=
  match n with
  | O => match numel4 t with
         | O => Raise (AmbiguousView O)
         | S _ => Raise (InvalidView (numel4 t) O)
         end
  | S _ =>
      if (numel4 t mod n =? 0)%nat
      then Ok (Tensor (n, numel4 t / n)%nat
                 (fun i j => flat4 t (i * (numel4 t / n) + j)%nat))
      else Raise (InvalidView (numel4 t) n)
  end.

(** The logistic function [1 / (1 + e^(-v))], which the sigmoid of the
    library applies to every entry. *)
Definition logistic (v : R) : R := 1 / (1 + exp (- v)).

(** [torch.nn.functional]: [F.linear], [F.sigmoid], [F.relu], [F.softmax] *)
Module F.

Definition linear (x w : tensor R) (b : tensor1) : result (tensor R) :=
  y <- mm x (transpose w) ;; add y (unsqueeze0 b).

Definition sigmoid (x : tensor R) : tensor R := map_tensor logistic x.

Definition relu (x : tensor R) : tensor R := map_tensor (Rmax 0) x.

(** [F.softmax(x, dim)]: the exponentials normalised along [dim].  The
    library subtracts the maximum first, which leaves the real value
    unchanged. *)
Definition softmax (x : tensor R) (dim : nat) : result (tensor R) :=
  match dim with
  | 0%nat => Ok (Tensor (shape x)
                   (fun i j => exp (item x i j)
                               / rsum (rows x) (fun k => exp (item x k j))))
  | 1%nat => Ok (Tensor (shape x)
                   (fun i j => exp (item x i j)
                               / rsum (cols x) (fun k => exp (item x i k))))
  | _ => Raise (DimOutOfRange dim)
  end.

End F.

(** [torch.nn]: the layers the notebook builds networks from *)
Module nn.

(** [nn.Linear]: the weight has shape [(out_features, in_features)], the
    bias has [out_features] entries. *)
Record Linear : Type := mkLinear {
  in_features : nat;
  out_features : nat;
  weight : tensor R;
  bias : tensor1
}.

(** [nn.Linear(i, o)].  The constructor fixes the shapes; the initial
    values are drawn at random, so they are arguments here. *)
Definition Linear_init (i o : nat) (w : nat -> nat -> R) (b : nat -> R)
  : Linear :=
  mkLinear i o (Tensor (o, i) w) (Tensor1 o b).

Inductive module : Type :=
| MLinear (l : Linear)
| Sigmoid
| ReLU
| Softmax (dim : nat).

Definition forward (m : module) (x : tensor R) : result (tensor R) :=
  match m with
  | MLinear l => F.linear x (weight l) (bias l)
  | Sigmoid => Ok (F.sigmoid x)
  | ReLU => Ok (F.relu x)
  | Softmax dim => F.softmax x dim
  end.

(** [nn.Sequential]: the modules are applied in order. *)
Fixpoint Sequential (ms : list module) (x : tensor R) : result (tensor R) :=
  match ms with
  | [] => Ok x
  | m :: ms' => y <- forward m x ;; Sequential ms' y
  end.

(** What a module prints as: its kind and its sizes. *)
Inductive layer : Type :=
| LLinear (i o : nat)
| LSigmoid
| LReLU
| LSoftmax (dim : nat).

Definition describe (m : module) : layer :=
  match m with
  | MLinear l => LLinear (in_features l) (out_features l)
  | Sigmoid => LSigmoid
  | ReLU => LReLU
  | Softmax d => LSoftmax d
  end.

(** [collections.OrderedDict] built from a list of pairs: a key that comes
    again keeps its first position and takes the later value. *)
Fixpoint od_set {V : Type} (d : list (string * V)) (k : string) (v : V)
  : list (string * V) :=
  match d with
  | [] => [(k, v)]
  | (k', v') :: d' =>
      if String.eqb k' k then (k', v) :: d'
      else (k', v') :: od_set d' k v
  end.

Definition OrderedDict {V : Type} (l : list (string * V))
  : list (string * V) :=
  fold_left (fun d kv => od_set d (fst kv) (snd kv)) l [].

(** [model.name]: the child module registered under [name], if any
    ([None] is Python's [AttributeError]). *)
Fixpoint getattr (children : list (string * module)) (name : string)
  : option module :=
  match children with
  | [] => None
  | (k, m) :: rest => if String.eqb k name then Some m else getattr rest name
  end.

(** [model[i]] on an [nn.Sequential] *)
Definition getitem (children : list (string * module)) (i : nat)
  : option module :=
  nth_error (map snd children) i.


End nn.

(** [torchvision.transforms], pixel by pixel. *)
Module transforms.

(** [ToTensor()]: a pixel byte becomes a number in [[0, 1]]. *)
Definition ToTensor (p : Z) : R := IZR p / 255.

(** [Normalize((mean,), (std,))] *)
Definition Normalize (mean std : R) (v : R) : R := (v - mean) / std.

End transforms.

End Torch.

(* ================================================================== *)
(** * The notebook's cells *)
(* ================================================================== *)

Module Notebook.

Import Torch.

(** ** Loading the data *)

(** [transform = transforms.Compose([transforms.ToTensor(),
    transforms.Normalize((0.5,), (0.5,))])], applied to one pixel. *)
Definition transform (p : Z) : R :=
  transforms.Normalize (1 / 2) (1 / 2) (transforms.ToTensor p).

(** [input = images.view(images.shape[0], -1)] *)
Definition input (images : tensor4) : result (tensor R) :=
  view4 images (size0 images).

(** ** The hand-written network (cell "Your solution") *)

(** [def activation(x): return 1 / (1 + torch.exp(-x))] *)
Definition activation (x : tensor R) : tensor R :=
  rtruediv 1 (radd 1 (texp (neg x))).

Definition n_hidden : nat := 256.
Definition n_output : nat := 10.

(** [torch.randn(n, m)]: the shape is fixed by the call, the values are
    random, so they are an argument. *)
Definition randn (n m : nat) (values : nat -> nat -> R) : tensor R :=
  Tensor (n, m) values.

(** [h = activation(torch.mm(input, W1) + B1)] *)
Definition h (input W1 B1 : tensor R) : result (tensor R) :=
  z <- mm input W1 ;;
  z' <- add z B1 ;;
  Ok (activation z').

(** [out = torch.mm(h, W2) + B2] *)
Definition out (input W1 B1 W2 B2 : tensor R) : result (tensor R) :=
  h' <- h input W1 B1 ;;
  z <- mm h' W2 ;;
  add z B2.

(** The whole cell: the images are flattened, then the weights and biases
    are created with the sizes [n_input = input.shape[1]], [n_hidden] and
    [n_output]. *)
Definition solution_cell (images : tensor4) (w1 b1 w2 b2 : nat -> nat -> R)
  : result (tensor R) :=
  input <- input images ;;
  let n_input := cols input in
  let W1 := randn n_input n_hidden w1 in
  let W2 := randn n_hidden n_output w2 in
  let B1 := randn 1 n_hidden b1 in
  let B2 := randn 1 n_output b2 in
  out input W1 B1 W2 B2.

(** ** The hand-written softmax *)

(** [def softmax(x): return x / torch.sum(x, dim=1).view(x.shape[0], -1)] *)
Definition softmax (x : tensor R) : result (tensor (option R)) :=
  s <- view (sum_dim1 x) (rows x) ;;
  div x s.

(** [probabilities = softmax(out)] *)
Definition probabilities (input W1 B1 W2 B2 : tensor R)
  : result (tensor (option R)) :=
  o <- out input W1 B1 W2 B2 ;; softmax o.

(** ** [class Network(nn.Module)], first version: the activations are
    modules created in [__init__] *)
Module Network.

Record t : Type := mk {
  hidden : nn.Linear;
  output : nn.Linear;
  sigmoid : nn.module;
  softmax : nn.module
}.

Definition init (w_h : nat -> nat -> R) (b_h : nat -> R)
                (w_o : nat -> nat -> R) (b_o : nat -> R) : t :=
  mk (nn.Linear_init 784 256 w_h b_h)
     (nn.Linear_init 256 10 w_o b_o)
     nn.Sigmoid
     (nn.Softmax 1).

Definition forward (self : t) (x : tensor R) : result (tensor R) :=
  x <- nn.forward (nn.MLinear (hidden self)) x ;;
  x <- nn.forward (sigmoid self) x ;;
  x <- nn.forward (nn.MLinear (output self)) x ;;
  x <- nn.forward (softmax self) x ;;
  Ok x.

(** The operations [forward] applies, in order. *)
Definition operations (self : t) : list nn.module :=
  [nn.MLinear (hidden self); sigmoid self;
   nn.MLinear (output self); softmax self].

End Network.

(** ** [class Network(nn.Module)], second version, with
    [torch.nn.functional] *)
Module NetworkF.

Record t : Type := mk {
  hidden : nn.Linear;
  output : nn.Linear
}.

Definition init (w_h : nat -> nat -> R) (b_h : nat -> R)
                (w_o : nat -> nat -> R) (b_o : nat -> R) : t :=
  mk (nn.Linear_init 784 256 w_h b_h)
     (nn.Linear_init 256 10 w_o b_o).

Definition forward (self : t) (x : tensor R) : result (tensor R) :=
  y <- nn.forward (nn.MLinear (hidden self)) x ;;
  let x := F.sigmoid y in
  y <- nn.forward (nn.MLinear (output self)) x ;;
  x <- F.softmax y 1 ;;
  Ok x.

Definition operations (self : t) : list nn.module :=
  [nn.MLinear (hidden self); nn.Sigmoid;
   nn.MLinear (output self); nn.Softmax 1].

End NetworkF.

(** ** [class Network(nn.Module)] of the cell "Your Turn to Build a
    Network" ("Your solution here") *)
Module YourTurn.

Record t : Type := mk {
  hidden : nn.Linear;
  output : nn.Linear
}.

Definition init (w_h : nat -> nat -> R) (b_h : nat -> R)
                (w_o : nat -> nat -> R) (b_o : nat -> R) : t :=
  mk (nn.Linear_init 784 256 w_h b_h)
     (nn.Linear_init 256 10 w_o b_o).

Definition forward (self : t) (x : tensor R) : result (tensor R) :=
  y <- nn.forward (nn.MLinear (hidden self)) x ;;
  let x := F.sigmoid y in
  y <- nn.forward (nn.MLinear (output self)) x ;;
  x <- F.softmax y 1 ;;
  Ok x.

Definition operations (self : t) : list nn.module :=
  [nn.MLinear (hidden self); nn.Sigmoid;
   nn.MLinear (output self); nn.Softmax 1].

End YourTurn.

(** ** The [nn.Sequential] model *)

Definition input_size : nat := 784.
Definition hidden_sizes : list nat := [128; 64]%nat.
Definition output_size : nat := 10.

Definition model (w1 : nat -> nat -> R) (b1 : nat -> R)
                 (w2 : nat -> nat -> R) (b2 : nat -> R)
                 (w3 : nat -> nat -> R) (b3 : nat -> R) : list nn.module :=
  [nn.MLinear (nn.Linear_init input_size (nth 0 hidden_sizes O) w1 b1);
   nn.ReLU;
   nn.MLinear (nn.Linear_init (nth 0 hidden_sizes O) (nth 1 hidden_sizes O)
                 w2 b2);
   nn.ReLU;
   nn.MLinear (nn.Linear_init (nth 1 hidden_sizes O) output_size w3 b3);
   nn.Softmax 1].

(** The same model built from an [OrderedDict], which names the layers. *)
Definition model_named (w1 : nat -> nat -> R) (b1 : nat -> R)
                       (w2 : nat -> nat -> R) (b2 : nat -> R)
                       (w3 : nat -> nat -> R) (b3 : nat -> R)
  : list (string * nn.module) :=
  nn.OrderedDict
    [("fc1"%string,
      nn.MLinear (nn.Linear_init input_size (nth 0 hidden_sizes O) w1 b1));
     ("relu1"%string, nn.ReLU);
     ("fc2"%string,
      nn.MLinear (nn.Linear_init (nth 0 hidden_sizes O)
                    (nth 1 hidden_sizes O) w2 b2));
     ("relu2"%string, nn.ReLU);
     ("output"%string,
      nn.MLinear (nn.Linear_init (nth 1 hidden_sizes O) output_size w3 b3));
     ("softmax"%string, nn.Softmax 1)].

(** The child modules that the first [Network] class registers in
    [__init__], in order. *)
Definition Network_children (self : Network.t) : list (string * nn.module) :=
  [("hidden"%string, nn.MLinear (Network.hidden self));
   ("output"%string, nn.MLinear (Network.output self));
   ("sigmoid"%string, Network.sigmoid self);
   ("softmax"%string, Network.softmax self)].

(** The child modules that the [Network] of the cell "Your Turn to Build a
    Network" registers in [__init__]. *)
Definition YourTurn_children (self : YourTurn.t)
  : list (string * nn.module) :=
  [("hidden"%string, nn.MLinear (YourTurn.hidden self));
   ("output"%string, nn.MLinear (YourTurn.output self))].

End Notebook.

(* ================================================================== *)
(** * What the specification asks for *)
(* ================================================================== *)

Module Spec.

Import Torch.

(** The largest entry of row [i] among its first [n] entries (the row is
    not empty: [n] is at least 1 where this is used). *)
Fixpoint row_max (x : tensor R) (i n : nat) : R :=
  match n with
  | O => item x i O
  | S k => Rmax (row_max x i k) (item x i k)
  end.

(** Section 4.4: [row_out[i] = e^(row_in[i] - m) / sum_k e^(row_in[k] - m)]
    with [m] the maximum of the row. *)
Definition softmax_entry (x : tensor R) (i j : nat) : R :=
  let m := row_max x i (cols x) in
  exp (item x i j - m) / rsum (cols x) (fun k => exp (item x i k - m)).

(** Sections 3 and 4.4: a row of probabilities has its entries in [[0,1]]
    and sums to 1 within the tolerance [1e-6]. *)
Definition in_unit_interval (o : option R) : Prop :=
  exists v, o = Some v /\ 0 <= v <= 1.

Definition tolerance : R := 1 / 1000000.

Definition close (a b : R) : Prop := Rabs (a - b) <= tolerance.

(** Section 4.5: the deeper variant
    Linear(784->128), ReLU, Linear(128->64), ReLU, Linear(64->10), Softmax. *)
Definition deeper_variant : list nn.layer :=
  [nn.LLinear 784 128; nn.LReLU; nn.LLinear 128 64; nn.LReLU;
   nn.LLinear 64 10; nn.LSoftmax 1].

(** The finite range of [float32], the type of every tensor of the
    notebook: the largest finite value is [2^128 - 2^104], and a real
    result of magnitude [2^128 - 2^103] or more rounds to infinity. *)
Definition float32_overflow_threshold : R := 2 ^ 128 - 2 ^ 103.
Definition overflows (r : R) : Prop := float32_overflow_threshold <= Rabs r.

End Spec.

(* ================================================================== *)
(** * The hand-written softmax in binary32 arithmetic *)
(* ================================================================== *)

(** The tensors of the notebook hold [float32] numbers.  The hand-written
    [softmax] uses only sums and quotients, which IEEE 754 defines bit by
    bit, so it can be run as the code runs it: here on binary32 values
    (24 bits of precision, exponents below 128), rounding to nearest,
    ties to even.  The entries of a row are added from left to right;
    another order gives the same sum for rows of one or two entries. *)
Module Float32.

Import Torch.

Definition prec : Z := 24.
Definition emax : Z := 128.

Definition float32 : Type := SpecFloat.spec_float.

Definition fadd : float32 -> float32 -> float32 := SpecFloat.SFadd prec emax.
Definition fmul : float32 -> float32 -> float32 := SpecFloat.SFmul prec emax.
Definition fdiv : float32 -> float32 -> float32 := SpecFloat.SFdiv prec emax.

Definition zero : float32 := SpecFloat.S754_zero false.

(** The binary32 number nearest to [m * 2^e]. *)
Definition of_Z (m e : Z) : float32 :=
  SpecFloat.binary_normalize prec emax m e false.

Record tensor1 : Type := Tensor1 {
  len : nat;
  item1 : nat -> float32
}.

Definition of_rows (n m : nat) (l : list (list float32)) : tensor float32 :=
  Tensor (n, m) (fun i j => nth j (nth i l []) zero).

Fixpoint fsum (n : nat) (f : nat -> float32) : float32 :=
  match n with
  | O => zero
  | S k => fadd (fsum k f) (f k)
  end.

(** [torch.sum(x, dim=1)] *)
Definition sum_dim1 (x : tensor float32) : tensor1 :=
  Tensor1 (rows x) (fun i => fsum (cols x) (fun k => item x i k)).

(** [t.view(n, -1)] on a one-dimensional tensor *)
Definition view (t : tensor1) (n : nat) : result (tensor float32) :=
  match n with
  | O => match len t with
         | O => Raise (AmbiguousView O)
         | S _ => Raise (InvalidView (len t) O)
         end
  | S _ =>
      if (len t mod n =? 0)%nat
      then Ok (Tensor (n, len t / n)%nat
                 (fun i j => item1 t (i * (len t / n) + j)%nat))
      else Raise (InvalidView (len t) n)
  end.

(** [a / b] and [c * x] *)
Definition div (a b : tensor float32) : result (tensor float32) :=
  broadcast2 fdiv a b.

Definition rmul (c : float32) (x : tensor float32) : tensor float32 :=
  map_tensor (fmul c) x.

(** [def softmax(x): return x / torch.sum(x, dim=1).view(x.shape[0], -1)] *)
Definition softmax (x : tensor float32) : result (tensor float32) :=
  s <- view (sum_dim1 x) (rows x) ;;
  div x s.

End Float32.

(* ================================================================== *)
(** * Properties *)
(* ================================================================== *)

Import Torch.

(** ** Sums *)

Section Sums.

Variables f g : nat -> R.

Lemma rsum_ext (n : nat) :
  (forall k, (k < n)%nat -> f k = g k) -> rsum n f = rsum n g.
Proof.
  induction n as [|n IH]; intros E; simpl; [reflexivity|].
  rewrite IH by (intros; apply E; lia).
  rewrite E by lia. reflexivity.
Qed.

Lemma rsum_scal (c : R) (n : nat) :
  rsum n (fun k => c * f k) = c * rsum n f.
Proof.
  induction n as [|n IH]; simpl; [ring|]. rewrite IH. ring.
Qed.


Lemma rsum_pos (n : nat) :
  (0 < n)%nat -> (forall k, (k < n)%nat -> 0 < f k) -> 0 < rsum n f.
Proof.
  induction n as [|n IH]; intros Hn P; [lia|]. simpl.
  destruct n as [|n].
  - simpl. specialize (P O ltac:(lia)). lra.
  - assert (0 < rsum (S n) f) by (apply IH; [lia | intros; apply P; lia]).
    specialize (P (S n) ltac:(lia)). lra.
Qed.

Lemma rsum_term_le (n j : nat) :
  (forall k, (k < n)%nat -> 0 <= f k) -> (j < n)%nat -> f j <= rsum n f.
Proof.
  induction n as [|n IH]; intros P Hj; [lia|]. simpl.
  assert (0 <= rsum n f).
  { clear IH Hj. induction n as [|m IHm]; simpl; [lra|].
    assert (0 <= rsum m f) by (apply IHm; intros; apply P; lia).
    specialize (P m ltac:(lia)). lra. }
  destruct (Nat.eq_dec j n) as [->|Hne].
  - lra.
  - assert (f j <= rsum n f) by (apply IH; [intros; apply P; lia | lia]).
    specialize (P n ltac:(lia)). lra.
Qed.

End Sums.

(** ** Shapes of the library operations *)

Lemma mm_ok (a b : tensor R) :
  cols a = rows b ->
  mm a b = Ok (Tensor (rows a, cols b)
                 (fun i j => rsum (cols a) (fun k => item a i k * item b k j))).
Proof.
  intros E. unfold mm. rewrite E, Nat.eqb_refl. reflexivity.
Qed.

Lemma mm_mismatch (a b : tensor R) :
  cols a <> rows b -> mm a b = Raise (SizeMismatch (shape a) (shape b)).
Proof.
  intros E. unfold mm. apply Nat.eqb_neq in E. rewrite E. reflexivity.
Qed.

Lemma broadcast_dim_same (n : nat) : broadcast_dim n n = Some n.
Proof. unfold broadcast_dim. rewrite Nat.eqb_refl. reflexivity. Qed.

Lemma broadcast_dim_one (n : nat) : broadcast_dim n 1 = Some n.
Proof.
  unfold broadcast_dim.
  destruct (n =? 1)%nat; reflexivity.
Qed.

(** Adding a bias of shape [(1, m)] to a batch of shape [(n, m)]. *)
Lemma add_bias_ok (z b : tensor R) (n m : nat) :
  shape z = (n, m) -> shape b = (1%nat, m) ->
  exists y, add z b = Ok y /\ shape y = (n, m) /\
    forall i j, (i < n)%nat -> (j < m)%nat ->
      item y i j = item z i j + item b O j.
Proof.
  intros Hz Hb. unfold add, broadcast2, broadcast_shape.
  rewrite Hz, Hb. cbn [fst snd].
  rewrite broadcast_dim_one, broadcast_dim_same.
  eexists; split; [reflexivity|]. split; [reflexivity|].
  intros i j Hi Hj. cbn [item]. unfold bitem, rows, cols.
  rewrite Hz, Hb. cbn [fst snd]. rewrite Nat.eqb_refl.
  destruct (Nat.eqb_spec n 1) as [->|_];
    destruct (Nat.eqb_spec m 1) as [->|_];
    repeat match goal with
           | H : (?k < 1)%nat |- _ =>
               assert (k = O) by lia; subst k; clear H
           end; reflexivity.
Qed.

(** [torch.mm(x, W) + B] *)
Lemma linear_ok (x W B : tensor R) (N D_in D_out : nat) :
  shape x = (N, D_in) -> shape W = (D_in, D_out) -> shape B = (1%nat, D_out) ->
  exists y, (z <- mm x W ;; add z B) = Ok y /\ shape y = (N, D_out) /\
    forall i j, (i < N)%nat -> (j < D_out)%nat ->
      item y i j = rsum D_in (fun k => item x i k * item W k j) + item B O j.
Proof.
  intros Hx HW HB.
  rewrite mm_ok by (unfold rows, cols; rewrite Hx, HW; reflexivity).
  cbn [bind].
  unfold rows, cols. rewrite Hx, HW. cbn [fst snd].
  destruct (@add_bias_ok
              (Tensor (N, D_out)
                 (fun i j => rsum D_in (fun k => item x i k * item W k j)))
              B N D_out eq_refl HB) as (y & E & S & I).
  exists y. split; [exact E|]. split; [exact S|].
  intros i j Hi Hj. rewrite I by assumption. reflexivity.
Qed.

(** [F.linear] with a weight of shape [(o, i)] and a bias of [o] entries. *)
Lemma F_linear_ok (x w : tensor R) (b : tensor1) (N i o : nat) :
  shape x = (N, i) -> shape w = (o, i) -> len b = o ->
  exists y, F.linear x w b = Ok y /\ shape y = (N, o) /\
    forall r c, (r < N)%nat -> (c < o)%nat ->
      item y r c = rsum i (fun k => item x r k * item w c k) + item1 b c.
Proof.
  intros Hx Hw Hb. unfold F.linear.
  destruct (@linear_ok x (transpose w) (unsqueeze0 b) N i o Hx)
    as (y & E & S & I).
  - unfold transpose, rows, cols. rewrite Hw. reflexivity.
  - unfold unsqueeze0. rewrite Hb. reflexivity.
  - exists y. split; [exact E|]. split; [exact S|]. exact I.
Qed.

Lemma F_linear_mismatch (x w : tensor R) (b : tensor1) :
  cols x <> cols w ->
  F.linear x w b = Raise (SizeMismatch (shape x) (cols w, rows w)).
Proof.
  intros E. unfold F.linear.
  rewrite mm_mismatch by exact E. reflexivity.
Qed.

Lemma activation_shape (x : tensor R) :
  shape (Notebook.activation x) = shape x.
Proof. reflexivity. Qed.

Lemma activation_item (x : tensor R) (i j : nat) :
  item (Notebook.activation x) i j = 1 / (1 + exp (- item x i j)).
Proof. reflexivity. Qed.

(** The divisor in [activation] is never zero. *)
Lemma activation_divisor_pos (v : R) : 1 < 1 + exp (- v).
Proof. pose proof (exp_pos (- v)). lra. Qed.

(** The hidden layer of the hand-written network. *)
Lemma h_ok (input W1 B1 : tensor R) (N D_in D_out : nat) :
  shape input = (N, D_in) -> shape W1 = (D_in, D_out) ->
  shape B1 = (1%nat, D_out) ->
  exists y, (z <- mm input W1 ;; add z B1) = Ok y /\
            Notebook.h input W1 B1 = Ok (Notebook.activation y) /\
            shape (Notebook.activation y) = (N, D_out).
Proof.
  intros Hx HW HB.
  destruct (@linear_ok _ _ _ _ _ _ Hx HW HB) as (y & E & S & _).
  exists y. split; [exact E|]. split; [|exact S].
  unfold Notebook.h.
  destruct (mm input W1) as [z|e]; cbn [bind] in *; [|discriminate].
  rewrite E. reflexivity.
Qed.

Lemma out_ok (input W1 B1 W2 B2 : tensor R) (N D_in D_h D_out : nat) :
  shape input = (N, D_in) -> shape W1 = (D_in, D_h) ->
  shape B1 = (1%nat, D_h) -> shape W2 = (D_h, D_out) ->
  shape B2 = (1%nat, D_out) ->
  exists o, Notebook.out input W1 B1 W2 B2 = Ok o /\ shape o = (N, D_out).
Proof.
  intros Hx HW1 HB1 HW2 HB2.
  destruct (@h_ok _ _ _ _ _ _ Hx HW1 HB1) as (y & _ & Eh & Sh).
  destruct (@linear_ok _ _ _ _ _ _ Sh HW2 HB2) as (o & Eo & So & _).
  exists o. split; [|exact So].
  unfold Notebook.out. rewrite Eh. exact Eo.
Qed.

Lemma Linear_init_forward (i o : nat) (w : nat -> nat -> R) (b : nat -> R)
      (x : tensor R) (N : nat) :
  shape x = (N, i) ->
  exists y, nn.forward (nn.MLinear (nn.Linear_init i o w b)) x = Ok y /\
            shape y = (N, o) /\
            forall r c, (r < N)%nat -> (c < o)%nat ->
              item y r c = rsum i (fun k => item x r k * w c k) + b c.
Proof.
  intros Hx. cbn [nn.forward nn.Linear_init nn.weight nn.bias].
  exact (@F_linear_ok x (Tensor (o, i) w) (Tensor1 o b) N i o
           Hx eq_refl eq_refl).
Qed.

Lemma Network_forward_ok (w_h : nat -> nat -> R) (b_h : nat -> R)
      (w_o : nat -> nat -> R) (b_o : nat -> R) (x : tensor R) (N : nat) :
  shape x = (N, 784%nat) ->
  exists p, Notebook.Network.forward (Notebook.Network.init w_h b_h w_o b_o) x
            = Ok p /\ shape p = (N, 10%nat).
Proof.
  intros Hx.
  destruct (@Linear_init_forward 784 256 w_h b_h x N Hx) as (y1 & E1 & S1 & _).
  destruct (@Linear_init_forward 256 10 w_o b_o (F.sigmoid y1) N S1)
    as (y2 & E2 & S2 & _).
  unfold Notebook.Network.forward, Notebook.Network.init.
  cbn [Notebook.Network.hidden Notebook.Network.output
       Notebook.Network.sigmoid Notebook.Network.softmax].
  rewrite E1. cbn [bind nn.forward] in E2 |- *.
  rewrite E2. cbn [bind F.softmax].
  eexists. split; [reflexivity|]. exact S2.
Qed.

(** The three [Network] classes of the notebook compute the same thing. *)
Lemma Network_classes_agree (w_h : nat -> nat -> R) (b_h : nat -> R)
      (w_o : nat -> nat -> R) (b_o : nat -> R) (x : tensor R) :
  Notebook.NetworkF.forward (Notebook.NetworkF.init w_h b_h w_o b_o) x
  = Notebook.Network.forward (Notebook.Network.init w_h b_h w_o b_o) x /\
  Notebook.YourTurn.forward (Notebook.YourTurn.init w_h b_h w_o b_o) x
  = Notebook.Network.forward (Notebook.Network.init w_h b_h w_o b_o) x.
Proof.
  unfold Notebook.NetworkF.forward, Notebook.YourTurn.forward,
    Notebook.Network.forward, Notebook.NetworkF.init, Notebook.YourTurn.init,
    Notebook.Network.init.
  cbn [Notebook.NetworkF.hidden Notebook.NetworkF.output
       Notebook.YourTurn.hidden Notebook.YourTurn.output
       Notebook.Network.hidden Notebook.Network.output
       Notebook.Network.sigmoid Notebook.Network.softmax].
  destruct (nn.forward (nn.MLinear (nn.Linear_init 784 256 w_h b_h)) x)
    as [y|e]; cbn [bind nn.forward]; split; reflexivity.
Qed.

(** C4: for every batch size [N] and correctly shaped parameters, the
    forward computation on an input of shape [(N, 784)] returns an output of
    shape [(N, 10)]: the hand-written [out] with weights of shapes
    [(784, 256)] and [(256, 10)] and biases of shapes [(1, 256)] and
    [(1, 10)], and [Network.forward] with the layers that [Network()]
    creates, whatever their values. *)
Theorem forward_output_shape :
  forall (N : nat) (input W1 B1 W2 B2 : tensor R)
         (w_h : nat -> nat -> R) (b_h : nat -> R)
         (w_o : nat -> nat -> R) (b_o : nat -> R),
    shape input = (N, 784%nat) ->
    shape W1 = (784%nat, Notebook.n_hidden) ->
    shape B1 = (1%nat, Notebook.n_hidden) ->
    shape W2 = (Notebook.n_hidden, Notebook.n_output) ->
    shape B2 = (1%nat, Notebook.n_output) ->
    (exists o, Notebook.out input W1 B1 W2 B2 = Ok o /\
               shape o = (N, 10%nat)) /\
    (exists p, Notebook.Network.forward
                 (Notebook.Network.init w_h b_h w_o b_o) input = Ok p /\
               shape p = (N, 10%nat)).
Proof.
  intros N input W1 B1 W2 B2 w_h b_h w_o b_o Hx HW1 HB1 HW2 HB2. split.
  - exact (@out_ok _ _ _ _ _ _ _ _ _ Hx HW1 HB1 HW2 HB2).
  - apply Network_forward_ok. exact Hx.
Qed.

Lemma forward_output_shape_witness :
  (exists o, Notebook.out (zeros 3 784) (zeros 784 256) (zeros 1 256)
               (zeros 256 10) (zeros 1 10) = Ok o /\
             shape o = (3%nat, 10%nat)) /\
  (exists p, Notebook.Network.forward
               (Notebook.Network.init (fun _ _ => 0) (fun _ => 0)
                  (fun _ _ => 0) (fun _ => 0)) (zeros 3 784) = Ok p /\
             shape p = (3%nat, 10%nat)).
Proof.
  apply (@forward_output_shape 3 (zeros 3 784) (zeros 784 256) (zeros 1 256)
           (zeros 256 10) (zeros 1 10)); reflexivity.
Defined.

(** C5: for an input batch of shape [(N, D_in)], a weight matrix of shape
    [(D_in, D_out)] and a bias of [D_out] entries (a tensor of shape
    [(1, D_out)], as the notebook creates it), [torch.mm(x, W) + B] returns
    a batch of shape [(N, D_out)] whose row [i] is the product of row [i] of
    the input with the weight matrix, plus the bias.  The computation is a
    function of its three arguments: it has no other effect.  The hidden
    layer [h] of the notebook is the activation of that batch. *)
Theorem linear_layer_transform :
  forall (x W B : tensor R) (N D_in D_out : nat),
    shape x = (N, D_in) -> shape W = (D_in, D_out) ->
    shape B = (1%nat, D_out) ->
    exists y, (z <- mm x W ;; add z B) = Ok y /\
              shape y = (N, D_out) /\
              (forall i j, (i < N)%nat -> (j < D_out)%nat ->
                 item y i j
                 = rsum D_in (fun k => item x i k * item W k j) + item B O j) /\
              Notebook.h x W B = Ok (Notebook.activation y).
Proof.
  intros x W B N D_in D_out Hx HW HB.
  destruct (@linear_ok _ _ _ _ _ _ Hx HW HB) as (y & E & S & I).
  destruct (@h_ok _ _ _ _ _ _ Hx HW HB) as (y' & E' & Eh & _).
  assert (y' = y) by congruence. subst y'.
  exists y. repeat split; assumption.
Qed.

Lemma linear_layer_transform_witness :
  exists y, (z <- mm (of_rows 1 2 [[5; -5]]) (of_rows 2 2 [[1; 0]; [0; 1]]) ;;
             add z (of_rows 1 2 [[0; 0]])) = Ok y /\
            shape y = (1%nat, 2%nat) /\
            (forall i j, (i < 1)%nat -> (j < 2)%nat ->
               item y i j
               = rsum 2 (fun k => item (of_rows 1 2 [[5; -5]]) i k
                                  * item (of_rows 2 2 [[1; 0]; [0; 1]]) k j)
                 + item (of_rows 1 2 [[0; 0]]) O j) /\
            Notebook.h (of_rows 1 2 [[5; -5]]) (of_rows 2 2 [[1; 0]; [0; 1]])
              (of_rows 1 2 [[0; 0]]) = Ok (Notebook.activation y).
Proof.
  apply (@linear_layer_transform (of_rows 1 2 [[5; -5]])
           (of_rows 2 2 [[1; 0]; [0; 1]]) (of_rows 1 2 [[0; 0]]) 1 2 2);
    reflexivity.
Defined.

(** ** The hand-written softmax, entry by entry *)

Lemma softmax_ok (x : tensor R) :
  (0 < rows x)%nat ->
  exists p, Notebook.softmax x = Ok p /\ shape p = shape x /\
    forall i j, (i < rows x)%nat -> (j < cols x)%nat ->
      item p i j = fdiv (item x i j) (rsum (cols x) (fun k => item x i k)).
Proof.
  destruct x as [[N K] it]. unfold rows, cols. cbn [shape fst snd item].
  intros HN. destruct N as [|n]; [lia|].
  unfold Notebook.softmax, view, sum_dim1, rows, cols.
  cbn [shape fst snd item len item1].
  rewrite Nat.Div0.mod_same. cbn [Nat.eqb bind].
  rewrite Nat.div_same by lia.
  unfold div, broadcast2, broadcast_shape. cbn [shape fst snd].
  rewrite broadcast_dim_same, broadcast_dim_one.
  eexists. split; [reflexivity|]. split; [reflexivity|].
  intros i j Hi Hj. cbn [item]. unfold bitem, rows, cols.
  cbn [shape fst snd item]. rewrite Nat.eqb_refl.
  destruct (Nat.eqb_spec (S n) 1) as [E|_];
    destruct (Nat.eqb_spec K 1) as [E'|_];
    try (assert (i = O) by lia; subst i);
    try (assert (j = O) by lia; subst j);
    rewrite ?Nat.mul_1_r, ?Nat.add_0_r; reflexivity.
Qed.

Lemma softmax_empty (x : tensor R) :
  rows x = O -> Notebook.softmax x = Raise (AmbiguousView O).
Proof.
  intros E. unfold Notebook.softmax, view, sum_dim1. cbn [len].
  rewrite E. reflexivity.
Qed.


Lemma fdiv_nonzero (x y : R) : y <> 0 -> fdiv x y = Some (x / y).
Proof.
  intros N. unfold fdiv. destruct (Req_dec_T y 0) as [E|_]; [|reflexivity].
  exfalso. exact (N E).
Qed.

(** C6: when the width of a batch [x] differs from the number of rows of a
    weight matrix [W] (the input width the layer is configured for),
    [torch.mm] raises the size-mismatch error that carries both shapes, and
    no bias is broadcast onto anything; the hand-written network fails with
    that error as a whole, both when [W] is the first layer and when it is
    the second one, and so does an [nn.Linear] layer with that input
    width.  A computation either returns a batch or raises. *)
Theorem width_mismatch_fails :
  forall (x W : tensor R),
    cols x <> rows W ->
    mm x W = Raise (SizeMismatch (shape x) (shape W)) /\
    (forall B, (z <- mm x W ;; add z B)
               = Raise (SizeMismatch (shape x) (shape W))) /\
    (forall B1 W2 B2,
        Notebook.out x W B1 W2 B2 = Raise (SizeMismatch (shape x) (shape W)) /\
        Notebook.probabilities x W B1 W2 B2
        = Raise (SizeMismatch (shape x) (shape W))) /\
    (forall input W1 B1 B2,
        Notebook.h input W1 B1 = Ok x ->
        Notebook.out input W1 B1 W B2
        = Raise (SizeMismatch (shape x) (shape W))) /\
    (forall l : nn.Linear,
        cols (nn.weight l) = rows W ->
        nn.forward (nn.MLinear l) x
        = Raise (SizeMismatch (shape x)
                   (cols (nn.weight l), rows (nn.weight l)))).
Proof.
  intros x W Hne.
  pose proof (@mm_mismatch _ _ Hne) as E.
  split; [exact E|]. split; [|split; [|split]].
  - intros B. rewrite E. reflexivity.
  - intros B1 W2 B2. unfold Notebook.probabilities, Notebook.out, Notebook.h.
    rewrite E. split; reflexivity.
  - intros input W1 B1 B2 Eh. unfold Notebook.out.
    rewrite Eh. cbn [bind]. rewrite E. reflexivity.
  - intros l El. cbn [nn.forward]. apply F_linear_mismatch.
    rewrite El. exact Hne.
Qed.

Lemma width_mismatch_fails_witness :
  mm (zeros 3 784) (zeros 256 10)
  = Raise (SizeMismatch (3%nat, 784%nat) (256%nat, 10%nat)).
Proof.
  refine (proj1 (@width_mismatch_fails (zeros 3 784) (zeros 256 10) _)).
  unfold cols, rows, zeros. simpl. lia.
Defined.



(** C10, as the code has it: in exact arithmetic the hand-written
    [softmax] is invariant under scaling: for every batch [x] of real
    entries whose rows all have a nonzero sum and every nonzero real [c],
    [softmax(c * x)] is [softmax(x)]. *)
Theorem softmax_scale_invariant :
  forall (x : tensor R) (c : R),
    (forall i, (i < rows x)%nat -> rsum (cols x) (fun k => item x i k) <> 0) ->
    c <> 0 ->
    result_eq (Notebook.softmax (rmul c x)) (Notebook.softmax x).
Proof.
  intros x c Hs Hc.
  destruct (Nat.eq_dec (rows x) O) as [E0|Hpos].
  - rewrite (@softmax_empty x E0), (@softmax_empty (rmul c x) E0).
    reflexivity.
  - destruct (@softmax_ok x ltac:(lia)) as (p & E & S & I).
    destruct (@softmax_ok (rmul c x) ltac:(unfold rows in *; simpl; lia))
      as (q & E' & S' & I').
    rewrite E, E'. cbn [result_eq]. split.
    + rewrite S', S. reflexivity.
    + intros i j Hi Hj.
      assert (Ri : (i < rows x)%nat) by (unfold rows in *; rewrite S' in Hi; exact Hi).
      assert (Cj : (j < cols x)%nat) by (unfold cols in *; rewrite S' in Hj; exact Hj).
      rewrite I by assumption.
      rewrite (I' i j Ri Cj).
      change (cols (rmul c x)) with (cols x).
      change (item (rmul c x) i j) with (c * item x i j).
      rewrite (@rsum_ext (fun k => item (rmul c x) i k)
                 (fun k => c * item x i k) (cols x))
        by (intros; reflexivity).
      rewrite (@rsum_scal (fun k => item x i k) c (cols x)).
      pose proof (Hs i Ri) as Hne.
      set (s := rsum (cols x) (fun k => item x i k)) in *.
      set (a := item x i j).
      assert (Hne' : c * s <> 0).
      { intros Z. apply Rmult_integral in Z. destruct Z; contradiction. }
      rewrite (@fdiv_nonzero a s Hne), (@fdiv_nonzero (c * a) (c * s) Hne').
      apply f_equal. field. split; assumption.
Qed.

Lemma softmax_scale_invariant_witness :
  result_eq (Notebook.softmax (rmul 3 (of_rows 1 2 [[1; 2]])))
            (Notebook.softmax (of_rows 1 2 [[1; 2]])).
Proof.
  apply (@softmax_scale_invariant (of_rows 1 2 [[1; 2]]) 3).
  - intros i Hi. unfold rows, cols, of_rows in *. simpl in *.
    assert (i = O) by lia. subst i. simpl. lra.
  - lra.
Defined.

(** C10, the part the code does not provide: in binary32 the two results
    are not equal entry for entry.  For [x = [[0.1, 0.2]]] and [c = 3] the
    first entries differ in the last bit; for [x = [[1, 2]]] and
    [c = 2^127] the product [c * 2] overflows and [softmax(c * x)] is
    [[0, nan]], where [softmax(x)] is one third and two thirds, rounded.
    In both batches the row sum is a nonzero number. *)
Lemma softmax_scaling_is_not_exact_in_float32 :
  (exists p q,
      Float32.softmax
        (Float32.of_rows 1 2
           [[Float32.of_Z 13421773 (-27); Float32.of_Z 13421773 (-26)]])
      = Ok p /\
      Float32.softmax
        (Float32.rmul (Float32.of_Z 3 0)
           (Float32.of_rows 1 2
              [[Float32.of_Z 13421773 (-27); Float32.of_Z 13421773 (-26)]]))
      = Ok q /\
      Float32.fsum 2
        (fun k => item (Float32.of_rows 1 2
                          [[Float32.of_Z 13421773 (-27);
                            Float32.of_Z 13421773 (-26)]]) O k)
      = Float32.of_Z 10066330 (-25) /\
      item p O O = Float32.of_Z 11184810 (-25) /\
      item q O O = Float32.of_Z 11184811 (-25) /\
      item q O O <> item p O O) /\
  (exists p q,
      Float32.softmax
        (Float32.of_rows 1 2 [[Float32.of_Z 1 0; Float32.of_Z 2 0]]) = Ok p /\
      Float32.softmax
        (Float32.rmul (Float32.of_Z 1 127)
           (Float32.of_rows 1 2 [[Float32.of_Z 1 0; Float32.of_Z 2 0]]))
      = Ok q /\
      Float32.fsum 2
        (fun k => item (Float32.of_rows 1 2
                          [[Float32.of_Z 1 0; Float32.of_Z 2 0]]) O k)
      = Float32.of_Z 3 0 /\
      item p O O = Float32.of_Z 11184811 (-25) /\
      item p O 1%nat = Float32.of_Z 11184811 (-24) /\
      item q O O = SpecFloat.S754_zero false /\
      item q O 1%nat = SpecFloat.S754_nan).
Proof.
  split.
  - eexists. eexists. split; [reflexivity|]. split; [reflexivity|].
    split; [vm_compute; reflexivity|].
    split; [vm_compute; reflexivity|].
    split; [vm_compute; reflexivity|].
    vm_compute. discriminate.
  - eexists. eexists. split; [reflexivity|]. split; [reflexivity|].
    repeat split; vm_compute; reflexivity.
Qed.

(** ** The hand-written softmax against the softmax of the library *)

(** The hand-written softmax on a batch of one row of two entries. *)
Lemma softmax_row2 (x : tensor R) (a b : R) :
  shape x = (1%nat, 2%nat) -> item x O O = a -> item x O 1%nat = b ->
  a + b <> 0 ->
  exists p, Notebook.softmax x = Ok p /\
            item p O O = Some (a / (a + b)) /\
            item p O 1%nat = Some (b / (a + b)).
Proof.
  intros S Ha Hb Hne.
  assert (R1 : rows x = 1%nat) by (unfold rows; rewrite S; reflexivity).
  assert (C2 : cols x = 2%nat) by (unfold cols; rewrite S; reflexivity).
  destruct (@softmax_ok x ltac:(lia)) as (p & E & _ & I).
  exists p. split; [exact E|].
  assert (Hs : rsum (cols x) (fun k => item x O k) = a + b).
  { rewrite C2. simpl. rewrite Ha, Hb. ring. }
  split.
  - rewrite I by lia. rewrite Hs, Ha. apply fdiv_nonzero. exact Hne.
  - rewrite I by lia. rewrite Hs, Hb. apply fdiv_nonzero. exact Hne.
Qed.

Lemma spec_softmax_entry_pos (x : tensor R) (i j : nat) :
  (0 < cols x)%nat -> 0 < Spec.softmax_entry x i j.
Proof.
  intros HK. unfold Spec.softmax_entry. cbv zeta.
  apply Rdiv_lt_0_compat; [apply exp_pos|].
  apply rsum_pos; [exact HK|]. intros k _. apply exp_pos.
Qed.

(** The softmax of the library is the softmax of section 4.4. *)
Lemma F_softmax_matches_spec (x : tensor R) :
  (0 < cols x)%nat ->
  exists p, F.softmax x 1 = Ok p /\ shape p = shape x /\
    forall i j, item p i j = Spec.softmax_entry x i j.
Proof.
  intros HK. cbn [F.softmax]. eexists. split; [reflexivity|].
  split; [reflexivity|]. intros i j. cbn [item].
  unfold Spec.softmax_entry. cbv zeta.
  set (m := Spec.row_max x i (cols x)).
  rewrite (@rsum_ext (fun k => exp (item x i k - m))
             (fun k => exp (- m) * exp (item x i k)) (cols x)).
  2:{ intros k _. unfold Rminus. rewrite exp_plus. ring. }
  rewrite (@rsum_scal (fun k => exp (item x i k)) (exp (- m)) (cols x)).
  unfold Rminus. rewrite exp_plus.
  assert (0 < rsum (cols x) (fun k => exp (item x i k)))
    by (apply rsum_pos; [exact HK | intros; apply exp_pos]).
  pose proof (exp_pos (- m)).
  field. split; lra.
Qed.



(** C1 (the code departs from it): on the batch [[1, 0]] the hand-written
    [softmax] returns [[1, 0]], the entries divided by their raw sum 1,
    whereas [e^(x_i - m) / sum_k e^(x_k - m)] is positive in every entry;
    the second entry of the result is not the one of the formula. *)
Theorem softmax_is_not_the_exponential_formula :
  exists p, Notebook.softmax (of_rows 1 2 [[1; 0]]) = Ok p /\
    item p O O = Some 1 /\
    item p O 1%nat = Some 0 /\
    0 < Spec.softmax_entry (of_rows 1 2 [[1; 0]]) O 1 /\
    item p O 1%nat <> Some (Spec.softmax_entry (of_rows 1 2 [[1; 0]]) O 1).
Proof.
  destruct (@softmax_row2 (of_rows 1 2 [[1; 0]]) 1 0 eq_refl eq_refl eq_refl
              ltac:(lra)) as (p & E & I0 & I1).
  pose proof (@spec_softmax_entry_pos (of_rows 1 2 [[1; 0]]) O 1
                ltac:(unfold cols, of_rows; simpl; lia)) as Hpos.
  exists p. split; [exact E|].
  replace (1 / (1 + 0)) with 1 in I0 by field.
  replace (0 / (1 + 0)) with 0 in I1 by field.
  split; [exact I0|]. split; [exact I1|]. split; [exact Hpos|].
  rewrite I1. intros H. injection H as H. lra.
Qed.

(** C2 (the code departs from it): on the batch [[-1, 2]] the hand-written
    [softmax] returns [[-1, 2]]: the row sums to 1, but neither entry lies
    in [[0,1]]. *)
Theorem softmax_entries_leave_unit_interval :
  exists p, Notebook.softmax (of_rows 1 2 [[-1; 2]]) = Ok p /\
    item p O O = Some (-1) /\
    item p O 1%nat = Some 2 /\
    ~ Spec.in_unit_interval (item p O O) /\
    ~ Spec.in_unit_interval (item p O 1%nat).
Proof.
  destruct (@softmax_row2 (of_rows 1 2 [[-1; 2]]) (-1) 2
              eq_refl eq_refl eq_refl ltac:(lra)) as (p & E & I0 & I1).
  exists p. split; [exact E|].
  replace (-1 / (-1 + 2)) with (-1) in I0 by field.
  replace (2 / (-1 + 2)) with 2 in I1 by field.
  split; [exact I0|]. split; [exact I1|]. split.
  - rewrite I0. intros (v & Hv & B). injection Hv as <-. lra.
  - rewrite I1. intros (v & Hv & B). injection Hv as <-. lra.
Qed.

(** C3 (the code departs from it): adding 1 to every entry of the row
    [[1, 0]] changes the result of the hand-written [softmax] from [[1, 0]]
    to [[2/3, 1/3]], far beyond any rounding tolerance. *)
Theorem softmax_is_not_shift_invariant :
  exists p q,
    Notebook.softmax (of_rows 1 2 [[1; 0]]) = Ok p /\
    Notebook.softmax (radd 1 (of_rows 1 2 [[1; 0]])) = Ok q /\
    item p O O = Some 1 /\
    item q O O = Some (2 / 3) /\
    ~ Spec.close 1 (2 / 3).
Proof.
  destruct (@softmax_row2 (of_rows 1 2 [[1; 0]]) 1 0 eq_refl eq_refl eq_refl
              ltac:(lra)) as (p & E & I0 & _).
  destruct (@softmax_row2 (radd 1 (of_rows 1 2 [[1; 0]])) (1 + 1) (1 + 0)
              eq_refl eq_refl eq_refl ltac:(lra)) as (q & E' & J0 & _).
  exists p, q. split; [exact E|]. split; [exact E'|].
  replace (1 / (1 + 0)) with 1 in I0 by field.
  replace ((1 + 1) / (1 + 1 + (1 + 0))) with (2 / 3) in J0 by field.
  split; [exact I0|]. split; [exact J0|].
  unfold Spec.close, Spec.tolerance.
  rewrite Rabs_pos_eq by lra. lra.
Qed.

(** ** The sigmoid activation *)

Lemma logistic_pos (v : R) : 0 < logistic v.
Proof.
  unfold logistic. pose proof (exp_pos (- v)).
  apply Rdiv_lt_0_compat; lra.
Qed.

Lemma logistic_lt_1 (v : R) : logistic v < 1.
Proof.
  unfold logistic. pose proof (exp_pos (- v)).
  apply Rmult_lt_reg_r with (1 + exp (- v)); [lra|].
  unfold Rdiv. rewrite Rmult_assoc, Rinv_l by lra. lra.
Qed.

Lemma logistic_0 : logistic 0 = 1 / 2.
Proof. unfold logistic. rewrite Ropp_0, exp_0. field. Qed.

Lemma logistic_increasing (a b : R) : a < b -> logistic a < logistic b.
Proof.
  intros Hab. unfold logistic.
  pose proof (exp_pos (- a)). pose proof (exp_pos (- b)).
  assert (exp (- b) < exp (- a)) by (apply exp_increasing; lra).
  unfold Rdiv. rewrite !Rmult_1_l.
  apply Rinv_0_lt_contravar; lra.
Qed.

(** [logistic v < e^v] and [1 - logistic v < e^(-v)]. *)
Lemma logistic_lt_exp (v : R) : logistic v < exp v.
Proof.
  unfold logistic. pose proof (exp_pos v). pose proof (exp_pos (- v)).
  apply Rmult_lt_reg_r with (1 + exp (- v)); [lra|].
  unfold Rdiv. rewrite Rmult_assoc, Rinv_l by lra.
  rewrite Rmult_plus_distr_l, <- exp_plus, Rplus_opp_r, exp_0. lra.
Qed.

Lemma one_minus_logistic_lt_exp (v : R) : 1 - logistic v < exp (- v).
Proof.
  unfold logistic. pose proof (exp_pos (- v)) as He.
  replace (1 - 1 / (1 + exp (- v)))
    with (exp (- v) * / (1 + exp (- v))) by (field; lra).
  assert (0 < / (1 + exp (- v)) < 1).
  { split; [apply Rinv_0_lt_compat; lra|].
    rewrite <- Rinv_1. apply Rinv_0_lt_contravar; lra. }
  nra.
Qed.

Lemma logistic_limit_minus_infinity (eps : R) :
  0 < eps -> exists M, forall v, v < M -> Rabs (logistic v) < eps.
Proof.
  intros He. exists (ln eps). intros v Hv.
  rewrite Rabs_pos_eq by (left; apply logistic_pos).
  apply Rlt_trans with (exp v); [apply logistic_lt_exp|].
  rewrite <- (exp_ln eps He). apply exp_increasing. exact Hv.
Qed.

Lemma logistic_limit_plus_infinity (eps : R) :
  0 < eps -> exists M, forall v, M < v -> Rabs (logistic v - 1) < eps.
Proof.
  intros He. exists (- ln eps). intros v Hv.
  pose proof (logistic_lt_1 v).
  rewrite Rabs_left by lra.
  apply Rlt_trans with (exp (- v));
    [pose proof (one_minus_logistic_lt_exp v); lra|].
  rewrite <- (exp_ln eps He). apply exp_increasing. lra.
Qed.

(** ** The range of [float32] *)

Lemma exp_INR (n : nat) : exp (INR n) = exp 1 ^ n.
Proof.
  induction n as [|n IH].
  - simpl. apply exp_0.
  - rewrite S_INR, exp_plus, IH. simpl. ring.
Qed.

Lemma exp_1_ge_2 : 2 <= exp 1.
Proof. pose proof (exp_ineq1 1 ltac:(lra)). lra. Qed.

Lemma exp_nat_mult (y : R) (n : nat) : exp (INR n * y) = exp y ^ n.
Proof.
  induction n as [|n IH].
  - simpl. rewrite Rmult_0_l. apply exp_0.
  - rewrite S_INR, Rmult_plus_distr_r, Rmult_1_l, exp_plus, IH. simpl. ring.
Qed.

(** A power of a ratio of integers compared with a ratio of integers, by
    a comparison of integers. *)
Lemma pow_ratio_le (a b c d : Z) (n : nat) :
  (0 < b)%Z -> (0 < d)%Z ->
  (d * a ^ Z.of_nat n <= c * b ^ Z.of_nat n)%Z ->
  (IZR a / IZR b) ^ n <= IZR c / IZR d.
Proof.
  intros Hb Hd H.
  apply IZR_lt in Hb. apply IZR_lt in Hd.
  apply IZR_le in H. rewrite !mult_IZR, <- !pow_IZR in H.
  assert (Pb : 0 < IZR b ^ n) by (apply pow_lt; exact Hb).
  assert (E : (IZR a / IZR b) ^ n * IZR b ^ n = IZR a ^ n).
  { rewrite <- Rpow_mult_distr. f_equal. field. lra. }
  apply Rmult_le_reg_r with (IZR b ^ n); [exact Pb|]. rewrite E.
  apply Rmult_le_reg_l with (IZR d); [exact Hd|].
  replace (IZR d * (IZR c / IZR d * IZR b ^ n)) with (IZR c * IZR b ^ n)
    by (field; lra).
  exact H.
Qed.

Lemma pow_ratio_ge (a b c d : Z) (n : nat) :
  (0 < b)%Z -> (0 < d)%Z ->
  (c * b ^ Z.of_nat n <= d * a ^ Z.of_nat n)%Z ->
  IZR c / IZR d <= (IZR a / IZR b) ^ n.
Proof.
  intros Hb Hd H.
  apply IZR_lt in Hb. apply IZR_lt in Hd.
  apply IZR_le in H. rewrite !mult_IZR, <- !pow_IZR in H.
  assert (Pb : 0 < IZR b ^ n) by (apply pow_lt; exact Hb).
  assert (E : (IZR a / IZR b) ^ n * IZR b ^ n = IZR a ^ n).
  { rewrite <- Rpow_mult_distr. f_equal. field. lra. }
  apply Rmult_le_reg_r with (IZR b ^ n); [exact Pb|]. rewrite E.
  apply Rmult_le_reg_l with (IZR d); [exact Hd|].
  replace (IZR d * (IZR c / IZR d * IZR b ^ n)) with (IZR c * IZR b ^ n)
    by (field; lra).
  exact H.
Qed.

(** [2.71 <= e <= 2.74], from [1 + x <= e^x] at [x = 1/256] and at
    [x = -1/64]. *)
Lemma exp_1_upper : exp 1 <= 274 / 100.
Proof.
  replace (exp 1) with (exp (INR 64 * (1 / 64)))
    by (f_equal; rewrite INR_IZR_INZ; simpl; field).
  rewrite exp_nat_mult.
  assert (H : exp (1 / 64) <= 64 / 63).
  { pose proof (exp_ineq1_le (- (1 / 64))) as L.
    rewrite exp_Ropp in L.
    pose proof (exp_pos (1 / 64)) as P.
    apply Rmult_le_reg_r with (63 / 64); [lra|].
    replace (64 / 63 * (63 / 64)) with 1 by field.
    apply Rle_trans with (exp (1 / 64) * / exp (1 / 64)).
    - apply Rmult_le_compat_l; lra.
    - rewrite Rinv_r by lra. lra. }
  apply Rle_trans with ((64 / 63) ^ 64).
  - apply pow_incr. split; [left; apply exp_pos | exact H].
  - apply (@pow_ratio_le 64 63 274 100 64);
      [lia | lia | apply Z.leb_le; vm_compute; reflexivity].
Qed.

Lemma exp_1_lower : 271 / 100 <= exp 1.
Proof.
  replace (exp 1) with (exp (INR 256 * (1 / 256)))
    by (f_equal; rewrite INR_IZR_INZ; simpl; field).
  rewrite exp_nat_mult.
  assert (H : 257 / 256 <= exp (1 / 256)).
  { pose proof (exp_ineq1_le (1 / 256)). lra. }
  apply Rle_trans with ((257 / 256) ^ 256).
  - apply (@pow_ratio_ge 257 256 271 100 256);
      [lia | lia | apply Z.leb_le; vm_compute; reflexivity].
  - apply pow_incr. split; [lra | exact H].
Qed.

Lemma exp_88_small : exp 88 + 1 < Spec.float32_overflow_threshold - 1.
Proof.
  assert (E : exp 88 = exp 1 ^ 88).
  { rewrite <- exp_INR. f_equal. rewrite INR_IZR_INZ. reflexivity. }
  assert (H1 : exp 1 ^ 88 <= (274 / 100) ^ 88).
  { apply pow_incr. split; [left; apply exp_pos | apply exp_1_upper]. }
  assert (H2 : (274 / 100) ^ 88
               <= IZR (2 ^ Z.of_nat 128 - 2 ^ Z.of_nat 103 - 3) / 1).
  { apply (@pow_ratio_le 274 100 _ 1 88);
      [lia | lia | apply Z.leb_le; vm_compute; reflexivity]. }
  rewrite !minus_IZR, <- !pow_IZR in H2.
  unfold Spec.float32_overflow_threshold. rewrite E. lra.
Qed.

Lemma exp_89_large : Spec.float32_overflow_threshold < exp 89.
Proof.
  assert (E : exp 89 = exp 1 ^ 89).
  { rewrite <- exp_INR. f_equal. rewrite INR_IZR_INZ. reflexivity. }
  assert (H1 : (271 / 100) ^ 89 <= exp 1 ^ 89).
  { apply pow_incr. split; [lra | apply exp_1_lower]. }
  assert (H2 : IZR (2 ^ Z.of_nat 128 - 2 ^ Z.of_nat 103 + 1) / 1
               <= (271 / 100) ^ 89).
  { apply (@pow_ratio_ge 271 100 _ 1 89);
      [lia | lia | apply Z.leb_le; vm_compute; reflexivity]. }
  rewrite plus_IZR, minus_IZR, <- !pow_IZR in H2.
  unfold Spec.float32_overflow_threshold. rewrite E. lra.
Qed.

Lemma exp_128_large : Spec.float32_overflow_threshold <= exp 128.
Proof.
  assert (E : exp 128 = exp 1 ^ 128).
  { rewrite <- exp_INR. f_equal. rewrite INR_IZR_INZ. reflexivity. }
  assert (2 ^ 128 <= exp 1 ^ 128).
  { apply pow_incr. split; [lra | apply exp_1_ge_2]. }
  assert (0 < 2 ^ 103) by (apply pow_lt; lra).
  unfold Spec.float32_overflow_threshold. rewrite E. lra.
Qed.

Lemma exp_le_mono (a b : R) : a <= b -> exp a <= exp b.
Proof.
  intros [H| ->]; [left; apply exp_increasing; exact H | right; reflexivity].
Qed.

Lemma logistic_monotone (a b : R) : a <= b -> logistic a <= logistic b.
Proof.
  intros [H| ->]; [left; apply logistic_increasing; exact H | right; reflexivity].
Qed.

(** [t <= e^(-v)] exactly when [v <= - ln t]. *)
Lemma exp_opp_ge_iff (t v : R) : 0 < t -> (t <= exp (- v) <-> v <= - ln t).
Proof.
  intros Ht. split; intros H.
  - destruct (Rle_lt_dec v (- ln t)) as [L|G]; [exact L|].
    exfalso. assert (exp (- v) < exp (ln t)) by (apply exp_increasing; lra).
    rewrite (exp_ln t Ht) in *. lra.
  - rewrite <- (exp_ln t Ht) at 1. apply exp_le_mono. lra.
Qed.

Lemma ln_threshold_bounds :
  88 < ln (Spec.float32_overflow_threshold - 1) /\
  ln Spec.float32_overflow_threshold < 89.
Proof.
  pose proof exp_88_small as S. pose proof exp_89_large as L.
  pose proof (exp_pos 88) as P.
  split.
  - rewrite <- (ln_exp 88) at 1. apply ln_increasing; lra.
  - rewrite <- (ln_exp 89) at 1. apply ln_increasing; lra.
Qed.

(** C7, as the code has it: [activation] maps every entry [v] to
    [1 / (1 + e^(-v))] and keeps the shape; it maps 0 to 0.5, is
    monotonically increasing, tends to 0 towards minus infinity and to 1
    towards plus infinity.  Its intermediate result [e^(-v)] reaches the
    magnitude at which [float32] overflows exactly for
    [v <= - ln (2^128 - 2^103)], and [1 + e^(-v)] exactly for
    [v <= - ln (2^128 - 2^103 - 1)]; the quotient never does.  Both bounds
    lie between -89 and -88: there is no overflow for an entry [v >= -88],
    and [e^(-v)] overflows for every [v <= -89]. *)
Theorem sigmoid_activation :
  forall (x y : tensor R) (i j : nat) (eps : R),
    0 < eps ->
    shape (Notebook.activation x) = shape x /\
    item (Notebook.activation x) i j = 1 / (1 + exp (- item x i j)) /\
    (item x i j = 0 -> item (Notebook.activation x) i j = 1 / 2) /\
    (item x i j <= item y i j ->
     item (Notebook.activation x) i j <= item (Notebook.activation y) i j) /\
    (exists M, forall z : tensor R,
        item z i j < M -> Rabs (item (Notebook.activation z) i j) < eps) /\
    (exists M, forall z : tensor R,
        M < item z i j ->
        Rabs (item (Notebook.activation z) i j - 1) < eps) /\
    (Spec.overflows (item (texp (neg x)) i j) <->
     item x i j <= - ln Spec.float32_overflow_threshold) /\
    (Spec.overflows (item (radd 1 (texp (neg x))) i j) <->
     item x i j <= - ln (Spec.float32_overflow_threshold - 1)) /\
    ~ Spec.overflows (item (Notebook.activation x) i j) /\
    88 < ln (Spec.float32_overflow_threshold - 1) /\
    ln Spec.float32_overflow_threshold < 89.
Proof.
  intros x y i j eps Heps.
  split; [reflexivity|]. split; [reflexivity|].
  change (item (Notebook.activation x) i j) with (logistic (item x i j)).
  change (item (Notebook.activation y) i j) with (logistic (item y i j)).
  pose proof exp_88_small as Hs. pose proof (exp_pos 88) as P88.
  set (v := item x i j) in *.
  change (item (texp (neg x)) i j) with (exp (- v)).
  change (item (radd 1 (texp (neg x))) i j) with (1 + exp (- v)).
  pose proof (exp_pos (- v)) as Hp.
  split; [|split; [|split; [|split; [|split; [|split; [|split]]]]]].
  - intros ->. apply logistic_0.
  - apply logistic_monotone.
  - destruct (logistic_limit_minus_infinity Heps) as (M & HM).
    exists M. intros z Hz. apply (HM (item z i j) Hz).
  - destruct (logistic_limit_plus_infinity Heps) as (M & HM).
    exists M. intros z Hz. apply (HM (item z i j) Hz).
  - unfold Spec.overflows. rewrite Rabs_pos_eq by lra.
    apply exp_opp_ge_iff. lra.
  - unfold Spec.overflows. rewrite Rabs_pos_eq by lra.
    rewrite <- (@exp_opp_ge_iff (Spec.float32_overflow_threshold - 1) v)
      by lra.
    split; intros; lra.
  - pose proof (logistic_pos v). pose proof (logistic_lt_1 v).
    unfold Spec.overflows. rewrite Rabs_pos_eq by lra. lra.
  - exact ln_threshold_bounds.
Qed.

Lemma sigmoid_activation_witness :
  item (Notebook.activation (of_rows 1 2 [[0; 5]])) O O = 1 / 2.
Proof.
  refine (proj1 (proj2 (proj2
    (@sigmoid_activation (of_rows 1 2 [[0; 5]]) (of_rows 1 2 [[5; -5]])
       O O 1 _))) _).
  - lra.
  - reflexivity.
Defined.

(** C7, the part the code does not provide: at the entry [-1e4], of
    magnitude [1e4], the intermediate result [torch.exp(-x)] of
    [activation] is [e^10000], beyond the magnitude at which [float32]
    overflows. *)
Lemma activation_overflows_at_minus_10000 :
  Rabs (item (of_rows 1 1 [[-10000]]) O O) <= 10000 /\
  Notebook.activation (of_rows 1 1 [[-10000]])
  = rtruediv 1 (radd 1 (texp (neg (of_rows 1 1 [[-10000]])))) /\
  Spec.overflows (item (texp (neg (of_rows 1 1 [[-10000]]))) O O).
Proof.
  split; [|split; [reflexivity|]].
  - change (item (of_rows 1 1 [[-10000]]) O O) with (-10000).
    rewrite Rabs_left by lra. lra.
  - change (item (texp (neg (of_rows 1 1 [[-10000]]))) O O)
      with (exp (- -10000)).
    unfold Spec.overflows.
    rewrite Rabs_pos_eq by (left; apply exp_pos).
    apply Rle_trans with (exp 128); [apply exp_128_large|].
    apply exp_le_mono. lra.
Qed.

(** ** The networks of the notebook as sequences of operations *)

Lemma YourTurn_forward_sequence (self : Notebook.YourTurn.t) (x : tensor R) :
  Notebook.YourTurn.forward self x
  = nn.Sequential (Notebook.YourTurn.operations self) x.
Proof.
  unfold Notebook.YourTurn.forward, Notebook.YourTurn.operations.
  cbn [nn.Sequential].
  destruct (nn.forward (nn.MLinear (Notebook.YourTurn.hidden self)) x)
    as [y|e]; cbn [bind nn.forward]; [|reflexivity].
  destruct (F.linear (F.sigmoid y)
              (nn.weight (Notebook.YourTurn.output self))
              (nn.bias (Notebook.YourTurn.output self)))
    as [y'|e]; cbn [bind]; [|reflexivity].
  destruct (F.softmax y' 1) as [p|e]; reflexivity.
Qed.

Lemma relu_item (x : tensor R) (i j : nat) :
  item (F.relu x) i j = Rmax 0 (item x i j).
Proof. reflexivity. Qed.

(** C8 (the code departs from it): the [Network] class of the cell "Your
    Turn to Build a Network" is the sigmoid network once more: its
    [forward] applies Linear(784->256), Sigmoid, Linear(256->10), Softmax,
    not the deeper variant with two ReLU hidden layers; the [nn.Sequential]
    model of the later cell is that deeper variant, whose ReLU is the
    elementwise [max(0, x)]. *)
Theorem your_turn_network_is_not_the_relu_network :
  forall (w_h : nat -> nat -> R) (b_h : nat -> R)
         (w_o : nat -> nat -> R) (b_o : nat -> R)
         (w1 : nat -> nat -> R) (b1 : nat -> R)
         (w2 : nat -> nat -> R) (b2 : nat -> R)
         (w3 : nat -> nat -> R) (b3 : nat -> R),
    (forall x,
        Notebook.YourTurn.forward (Notebook.YourTurn.init w_h b_h w_o b_o) x
        = nn.Sequential
            (Notebook.YourTurn.operations
               (Notebook.YourTurn.init w_h b_h w_o b_o)) x) /\
    map nn.describe
      (Notebook.YourTurn.operations (Notebook.YourTurn.init w_h b_h w_o b_o))
    = [nn.LLinear 784 256; nn.LSigmoid; nn.LLinear 256 10; nn.LSoftmax 1] /\
    map nn.describe
      (Notebook.YourTurn.operations (Notebook.YourTurn.init w_h b_h w_o b_o))
    <> Spec.deeper_variant /\
    map nn.describe (Notebook.model w1 b1 w2 b2 w3 b3) = Spec.deeper_variant /\
    (forall x i j, item (F.relu x) i j = Rmax 0 (item x i j)).
Proof.
  intros. split; [|split; [|split; [|split; [|apply relu_item]]]].
  - intros x. apply YourTurn_forward_sequence.
  - reflexivity.
  - cbn. unfold Spec.deeper_variant. intros H.
    assert (L : length [nn.LLinear 784 256; nn.LSigmoid; nn.LLinear 256 10;
                        nn.LSoftmax 1]
                = length [nn.LLinear 784 128; nn.LReLU; nn.LLinear 128 64;
                          nn.LReLU; nn.LLinear 64 10; nn.LSoftmax 1])
      by (rewrite H; reflexivity).
    simpl in L. lia.
  - reflexivity.
Qed.

(* ================================================================== *)
(** * Further properties of the notebook's cells *)
(* ================================================================== *)

(** ** Loading and flattening the images *)

(** The transform of the data loader maps a pixel byte [p] to [2p/255 - 1]:
    the network's inputs lie in [[-1, 1]], black is -1 and white is 1. *)
Theorem transform_range :
  forall p : Z,
    (0 <= p <= 255)%Z ->
    Notebook.transform p = 2 * IZR p / 255 - 1 /\
    -1 <= Notebook.transform p <= 1 /\
    Notebook.transform 0 = -1 /\
    Notebook.transform 255 = 1.
Proof.
  intros p [Hlo Hhi].
  apply IZR_le in Hlo. apply IZR_le in Hhi.
  unfold Notebook.transform, transforms.Normalize, transforms.ToTensor.
  repeat split; try field; try (unfold Rdiv; lra).
Qed.

Lemma transform_range_witness :
  Notebook.transform 128 = 2 * IZR 128 / 255 - 1 /\
  -1 <= Notebook.transform 128 <= 1 /\
  Notebook.transform 0 = -1 /\
  Notebook.transform 255 = 1.
Proof.
  apply (@transform_range 128%Z). lia.
Defined.

(** A brighter pixel gives a larger input. *)
Theorem transform_increasing :
  forall p q : Z, (p < q)%Z -> Notebook.transform p < Notebook.transform q.
Proof.
  intros p q H. apply IZR_lt in H.
  unfold Notebook.transform, transforms.Normalize, transforms.ToTensor.
  unfold Rdiv. lra.
Qed.

Lemma transform_increasing_witness :
  Notebook.transform 0 < Notebook.transform 255.
Proof.
  apply (@transform_increasing 0%Z 255%Z). lia.
Defined.

(** Flattening a non-empty batch of shape [(N, C, H, W)] gives a batch of
    shape [(N, C*H*W)] whose row [i] lists image [i] channel by channel and
    line by line. *)
Theorem input_flattens_images :
  forall (images : tensor4) (N C H W : nat),
    shape4 images = (N, C, H, W) ->
    (0 < N)%nat ->
    exists x, Notebook.input images = Ok x /\
      shape x = (N, (C * H * W)%nat) /\
      forall i c r w, (i < N)%nat -> (c < C)%nat -> (r < H)%nat ->
                      (w < W)%nat ->
        item x i ((c * H + r) * W + w)%nat = item4 images i c r w.
Proof.
  intros images N C H W HS HN.
  unfold Notebook.input, view4, numel4, flat4, size0, size1, size2, size3.
  rewrite HS. cbn [fst snd].
  destruct N as [|n]; [lia|].
  set (M := (C * H * W)%nat).
  replace (S n * C * H * W)%nat with (M * S n)%nat by (unfold M; lia).
  rewrite Nat.Div0.mod_mul. cbn [Nat.eqb].
  rewrite Nat.div_mul by lia.
  eexists. split; [reflexivity|]. split; [reflexivity|].
  intros i c r w Hi Hc Hr Hw. cbn [item].
  set (k := (i * M + ((c * H + r) * W + w))%nat).
  assert (Hrw : (r * W + w < H * W)%nat) by nia.
  assert (Hcrw : ((c * H + r) * W + w < M)%nat) by (unfold M; nia).
  assert (E0 : (k / M = i)%nat).
  { symmetry. apply Nat.div_unique with ((c * H + r) * W + w)%nat;
      [exact Hcrw | unfold k; lia]. }
  assert (E1 : ((k / (H * W)) mod C = c)%nat).
  { assert (Ek : (k / (H * W) = i * C + c)%nat).
    { symmetry. apply Nat.div_unique with (r * W + w)%nat;
        [exact Hrw | unfold k, M; nia]. }
    rewrite Ek. symmetry. apply Nat.mod_unique with i; lia. }
  assert (E2 : ((k / W) mod H = r)%nat).
  { assert (Ek : (k / W = (i * C + c) * H + r)%nat).
    { symmetry. apply Nat.div_unique with w; [exact Hw | unfold k, M; nia]. }
    rewrite Ek. symmetry. apply Nat.mod_unique with (i * C + c)%nat; lia. }
  assert (E3 : (k mod W = w)%nat).
  { symmetry. apply Nat.mod_unique with ((i * C + c) * H + r)%nat;
      [exact Hw | unfold k, M; nia]. }
  fold M. rewrite E0, E1, E2, E3. reflexivity.
Qed.

Lemma input_flattens_images_witness :
  exists x, Notebook.input (Tensor4 (64, 1, 28, 28)%nat (fun _ _ _ _ => 0))
            = Ok x /\
    shape x = (64, 1 * 28 * 28)%nat /\
    forall i c r w, (i < 64)%nat -> (c < 1)%nat -> (r < 28)%nat ->
                    (w < 28)%nat ->
      item x i ((c * 28 + r) * 28 + w)%nat
      = item4 (Tensor4 (64, 1, 28, 28)%nat (fun _ _ _ _ => 0)) i c r w.
Proof.
  apply (@input_flattens_images
           (Tensor4 (64, 1, 28, 28)%nat (fun _ _ _ _ => 0)) 64 1 28 28).
  - reflexivity.
  - lia.
Defined.

(** Flattening an empty batch fails: with no image the second size of
    [view(0, -1)] cannot be inferred. *)
Theorem input_empty_batch :
  forall images : tensor4,
    size0 images = O ->
    Notebook.input images = Raise (AmbiguousView O).
Proof.
  intros images H0. unfold Notebook.input, view4, numel4.
  rewrite H0. reflexivity.
Qed.

Lemma input_empty_batch_witness :
  Notebook.input (Tensor4 (0, 1, 28, 28)%nat (fun _ _ _ _ => 0))
  = Raise (AmbiguousView O).
Proof.
  apply (@input_empty_batch (Tensor4 (0, 1, 28, 28)%nat (fun _ _ _ _ => 0))).
  reflexivity.
Defined.

(** ** The hand-written network, entry by entry *)

(** The output of the hand-written network in closed form: the logistic
    function of the first affine layer, fed to the second affine layer. *)
Theorem out_closed_form :
  forall (input W1 B1 W2 B2 : tensor R) (N D_in D_h D_out : nat),
    shape input = (N, D_in) -> shape W1 = (D_in, D_h) ->
    shape B1 = (1%nat, D_h) -> shape W2 = (D_h, D_out) ->
    shape B2 = (1%nat, D_out) ->
    exists o, Notebook.out input W1 B1 W2 B2 = Ok o /\
      shape o = (N, D_out) /\
      forall i j, (i < N)%nat -> (j < D_out)%nat ->
        item o i j
        = rsum D_h
            (fun k =>
               logistic (rsum D_in (fun m => item input i m * item W1 m k)
                         + item B1 O k)
               * item W2 k j)
          + item B2 O j.
Proof.
  intros input W1 B1 W2 B2 N D_in D_h D_out Hx HW1 HB1 HW2 HB2.
  destruct (@linear_ok _ _ _ _ _ _ Hx HW1 HB1) as (y & Ey & Sy & Iy).
  destruct (@h_ok _ _ _ _ _ _ Hx HW1 HB1) as (y' & Ey' & Eh & Sh).
  assert (y' = y) by congruence. subst y'.
  destruct (@linear_ok _ _ _ _ _ _ Sh HW2 HB2) as (o & Eo & So & Io).
  exists o. split; [|split; [exact So|]].
  - unfold Notebook.out. rewrite Eh. exact Eo.
  - intros i j Hi Hj. rewrite (Io i j Hi Hj). f_equal.
    apply rsum_ext. intros k Hk.
    change (item (Notebook.activation y) i k) with (logistic (item y i k)).
    rewrite (Iy i k Hi Hk). reflexivity.
Qed.

Lemma out_closed_form_witness :
  exists o, Notebook.out (zeros 3 784) (zeros 784 256) (zeros 1 256)
              (zeros 256 10) (zeros 1 10) = Ok o /\
    shape o = (3%nat, 10%nat) /\
    forall i j, (i < 3)%nat -> (j < 10)%nat ->
      item o i j
      = rsum 256
          (fun k =>
             logistic (rsum 784 (fun m => item (zeros 3 784) i m
                                          * item (zeros 784 256) m k)
                       + item (zeros 1 256) O k)
             * item (zeros 256 10) k j)
        + item (zeros 1 10) O j.
Proof.
  apply (@out_closed_form (zeros 3 784) (zeros 784 256) (zeros 1 256)
           (zeros 256 10) (zeros 1 10) 3 784 256 10); reflexivity.
Defined.



(** The images flattened by the first line of the cell. *)
Lemma input_shape (images : tensor4) (N C H W : nat) :
  shape4 images = (N, C, H, W) -> (0 < N)%nat ->
  exists x, Notebook.input images = Ok x /\ shape x = (N, (C * H * W)%nat).
Proof.
  intros HS HN.
  unfold Notebook.input, view4, numel4, size0, size1, size2, size3.
  rewrite HS. cbn [fst snd].
  destruct N as [|n]; [lia|].
  replace (S n * C * H * W)%nat with ((C * H * W) * S n)%nat by lia.
  rewrite Nat.Div0.mod_mul. cbn [Nat.eqb].
  rewrite Nat.div_mul by lia.
  eexists. split; reflexivity.
Qed.

(** The whole cell of the hand-written network (flattening the images,
    creating the parameters, computing [out]) returns a batch of shape
    [(N, 10)] for a non-empty batch of [N] images of any size, since it
    sizes its first weight matrix from the flattened batch; for an empty
    batch it raises in its first line. *)
Theorem solution_cell_any_width :
  forall (images : tensor4) (w1 b1 w2 b2 : nat -> nat -> R) (N C H W : nat),
    shape4 images = (N, C, H, W) ->
    ((0 < N)%nat ->
     exists o, Notebook.solution_cell images w1 b1 w2 b2 = Ok o /\
               shape o = (N, 10%nat)) /\
    (N = O ->
     Notebook.solution_cell images w1 b1 w2 b2 = Raise (AmbiguousView O)).
Proof.
  intros images w1 b1 w2 b2 N C H W HS. split.
  - intros HN.
    destruct (@input_shape images N C H W HS HN) as (x & Ex & Sx).
    unfold Notebook.solution_cell. rewrite Ex. cbn [bind]. cbv zeta.
    apply (@out_ok _ _ _ _ _ N (C * H * W)%nat Notebook.n_hidden
             Notebook.n_output Sx).
    + unfold Notebook.randn, cols. rewrite Sx. reflexivity.
    + reflexivity.
    + reflexivity.
    + reflexivity.
  - intros ->. unfold Notebook.solution_cell, Notebook.input, view4, numel4,
      size0.
    rewrite HS. reflexivity.
Qed.

Lemma solution_cell_any_width_witness :
  ((0 < 64)%nat ->
   exists o, Notebook.solution_cell
               (Tensor4 (64, 1, 28, 28)%nat (fun _ _ _ _ => 0))
               (fun _ _ => 0) (fun _ _ => 0) (fun _ _ => 0) (fun _ _ => 0)
             = Ok o /\
             shape o = (64%nat, 10%nat)) /\
  (64%nat = O ->
   Notebook.solution_cell
     (Tensor4 (64, 1, 28, 28)%nat (fun _ _ _ _ => 0))
     (fun _ _ => 0) (fun _ _ => 0) (fun _ _ => 0) (fun _ _ => 0)
   = Raise (AmbiguousView O)).
Proof.
  apply (@solution_cell_any_width
           (Tensor4 (64, 1, 28, 28)%nat (fun _ _ _ _ => 0))
           (fun _ _ => 0) (fun _ _ => 0) (fun _ _ => 0) (fun _ _ => 0)
           64 1 28 28).
  reflexivity.
Defined.

(** A bias whose width is neither the width of the layer nor 1 makes the
    layer fail with the broadcasting error that carries both shapes. *)
Theorem bias_width_mismatch_fails :
  forall (x W B : tensor R) (N D_in D_out : nat),
    shape x = (N, D_in) -> shape W = (D_in, D_out) ->
    cols B <> D_out -> cols B <> 1%nat -> D_out <> 1%nat ->
    Notebook.h x W B = Raise (BroadcastMismatch (N, D_out) (shape B)).
Proof.
  intros x W B N D_in D_out Hx HW H1 H2 H3.
  unfold Notebook.h.
  rewrite mm_ok by (unfold rows, cols; rewrite Hx, HW; reflexivity).
  cbn [bind]. unfold rows, cols in *. rewrite Hx, HW. cbn [fst snd].
  unfold add, broadcast2, broadcast_shape. cbn [shape fst snd].
  assert (E : broadcast_dim D_out (snd (shape B)) = None).
  { unfold broadcast_dim.
    destruct (Nat.eqb_spec D_out (snd (shape B))); [congruence|].
    destruct (Nat.eqb_spec D_out 1); [congruence|].
    destruct (Nat.eqb_spec (snd (shape B)) 1); [congruence|]. reflexivity. }
  rewrite E. destruct (broadcast_dim N (fst (shape B))); reflexivity.
Qed.

Lemma bias_width_mismatch_fails_witness :
  Notebook.h (zeros 3 784) (zeros 784 256) (zeros 1 10)
  = Raise (BroadcastMismatch (3, 256)%nat (1, 10)%nat).
Proof.
  apply (@bias_width_mismatch_fails (zeros 3 784) (zeros 784 256)
           (zeros 1 10) 3 784 256).
  - reflexivity.
  - reflexivity.
  - unfold cols, zeros. simpl. lia.
  - unfold cols, zeros. simpl. lia.
  - lia.
Defined.

(** Broadcasting goes both ways: for a batch of one row and a bias of [R]
    rows, [torch.mm(x, W) + B] silently returns [R] rows, the single
    product row plus each row of the bias. *)
Theorem one_row_batch_takes_bias_rows :
  forall (x W B : tensor R) (D_in D_out R : nat),
    shape x = (1%nat, D_in) -> shape W = (D_in, D_out) ->
    shape B = (R, D_out) ->
    exists y, (z <- mm x W ;; add z B) = Ok y /\
      shape y = (R, D_out) /\
      forall i j, (i < R)%nat -> (j < D_out)%nat ->
        item y i j
        = rsum D_in (fun k => item x O k * item W k j) + item B i j.
Proof.
  intros x W B D_in D_out R Hx HW HB.
  rewrite mm_ok by (unfold rows, cols; rewrite Hx, HW; reflexivity).
  cbn [bind]. unfold rows, cols. rewrite Hx, HW. cbn [fst snd].
  unfold add, broadcast2, broadcast_shape. cbn [shape fst snd].
  rewrite HB. cbn [fst snd]. rewrite broadcast_dim_same.
  assert (E : broadcast_dim 1 R = Some R).
  { unfold broadcast_dim. destruct (Nat.eqb_spec 1 R) as [<-|_]; reflexivity. }
  rewrite E.
  eexists. split; [reflexivity|]. split; [reflexivity|].
  intros i j Hi Hj. cbn [item]. unfold bitem, rows, cols.
  cbn [shape fst snd item]. rewrite HB. cbn [fst snd].
  destruct (Nat.eqb_spec R 1) as [->|_];
    destruct (Nat.eqb_spec D_out 1) as [->|_];
    try (assert (i = O) by lia; subst i);
    try (assert (j = O) by lia; subst j); reflexivity.
Qed.

Lemma one_row_batch_takes_bias_rows_witness :
  exists y, (z <- mm (zeros 1 784) (zeros 784 256) ;; add z (zeros 64 256))
            = Ok y /\
    shape y = (64, 256)%nat /\
    forall i j, (i < 64)%nat -> (j < 256)%nat ->
      item y i j
      = rsum 784 (fun k => item (zeros 1 784) O k * item (zeros 784 256) k j)
        + item (zeros 64 256) i j.
Proof.
  apply (@one_row_batch_takes_bias_rows (zeros 1 784) (zeros 784 256)
           (zeros 64 256) 784 256 64); reflexivity.
Defined.

(** ** The hand-written softmax: what it does deliver *)

(** On a row of non-negative entries that are not all zero the result is a
    distribution after all: every entry lies in [[0,1]]. *)
Theorem softmax_nonnegative_row :
  forall (x : tensor R) (i : nat),
    (i < rows x)%nat ->
    (forall j, (j < cols x)%nat -> 0 <= item x i j) ->
    rsum (cols x) (fun k => item x i k) <> 0 ->
    exists p, Notebook.softmax x = Ok p /\
      forall j, (j < cols x)%nat -> Spec.in_unit_interval (item p i j).
Proof.
  intros x i Hi Hnn Hs.
  destruct (@softmax_ok x ltac:(lia)) as (p & E & _ & I).
  exists p. split; [exact E|]. intros j Hj.
  set (s := rsum (cols x) (fun k => item x i k)) in *.
  assert (Hle : item x i j <= s)
    by (apply (@rsum_term_le (fun k => item x i k) (cols x) j Hnn Hj)).
  pose proof (Hnn j Hj) as H0.
  assert (Hpos : 0 < s) by lra.
  exists (item x i j / s). split.
  - rewrite (I i j Hi Hj). fold s. apply fdiv_nonzero. exact Hs.
  - split.
    + unfold Rdiv. apply Rmult_le_pos; [exact H0|].
      left. apply Rinv_0_lt_compat. exact Hpos.
    + apply Rmult_le_reg_r with s; [exact Hpos|].
      unfold Rdiv. rewrite Rmult_assoc, Rinv_l by lra. lra.
Qed.

Lemma softmax_nonnegative_row_witness :
  exists p, Notebook.softmax (of_rows 1 2 [[1; 3]]) = Ok p /\
    forall j, (j < 2)%nat -> Spec.in_unit_interval (item p O j).
Proof.
  apply (@softmax_nonnegative_row (of_rows 1 2 [[1; 3]]) O).
  - unfold rows, of_rows. simpl. lia.
  - intros j Hj. unfold cols, of_rows in *. simpl in *.
    destruct j as [|[|j]]; simpl; try lra. lia.
  - unfold cols, of_rows. simpl. lra.
Defined.

(** On an empty batch the hand-written softmax raises: [view(0, -1)] cannot
    infer the second size. *)
Theorem softmax_fails_on_empty_batch :
  forall x : tensor R,
    rows x = O -> Notebook.softmax x = Raise (AmbiguousView O).
Proof.
  intros x E. unfold Notebook.softmax, view, sum_dim1. cbn [len].
  rewrite E. reflexivity.
Qed.

Lemma softmax_fails_on_empty_batch_witness :
  Notebook.softmax (zeros 0 10) = Raise (AmbiguousView O).
Proof.
  apply (@softmax_fails_on_empty_batch (zeros 0 10)). reflexivity.
Defined.

(** ** The [Network] class *)

(** [Network.forward] in closed form. *)
Lemma Network_forward_items (w_h : nat -> nat -> R) (b_h : nat -> R)
      (w_o : nat -> nat -> R) (b_o : nat -> R) (x : tensor R) (N : nat) :
  shape x = (N, 784%nat) ->
  exists p, Notebook.Network.forward (Notebook.Network.init w_h b_h w_o b_o) x
            = Ok p /\
    shape p = (N, 10%nat) /\
    forall i j, (i < N)%nat -> (j < 10)%nat ->
      item p i j
      = exp (rsum 256
               (fun k => logistic (rsum 784 (fun m => item x i m * w_h k m)
                                   + b_h k) * w_o j k) + b_o j)
        / rsum 10
            (fun c =>
               exp (rsum 256
                      (fun k =>
                         logistic (rsum 784 (fun m => item x i m * w_h k m)
                                   + b_h k) * w_o c k) + b_o c)).
Proof.
  intros Hx.
  destruct (@Linear_init_forward 784 256 w_h b_h x N Hx) as (y1 & E1 & S1 & I1).
  destruct (@Linear_init_forward 256 10 w_o b_o (F.sigmoid y1) N S1)
    as (y2 & E2 & S2 & I2).
  assert (I2' : forall i j, (i < N)%nat -> (j < 10)%nat ->
            item y2 i j
            = rsum 256
                (fun k => logistic (rsum 784 (fun m => item x i m * w_h k m)
                                    + b_h k) * w_o j k) + b_o j).
  { intros i j Hi Hj. rewrite (I2 i j Hi Hj). f_equal.
    apply rsum_ext. intros k Hk.
    change (item (F.sigmoid y1) i k) with (logistic (item y1 i k)).
    rewrite (I1 i k Hi Hk). reflexivity. }
  unfold Notebook.Network.forward, Notebook.Network.init.
  cbn [Notebook.Network.hidden Notebook.Network.output
       Notebook.Network.sigmoid Notebook.Network.softmax].
  rewrite E1. cbn [bind nn.forward] in E2 |- *.
  rewrite E2. cbn [bind F.softmax].
  eexists. split; [reflexivity|]. split; [exact S2|].
  intros i j Hi Hj. cbn [item]. unfold cols. rewrite S2. cbn [snd].
  rewrite (I2' i j Hi Hj). f_equal.
  apply rsum_ext. intros c Hc. rewrite (I2' i c Hi Hc). reflexivity.
Qed.

(** The [Network] class is the hand-written network followed by the
    softmax of the library: with the transposed weight matrices and the
    same biases, [Network.forward] returns the exponentials of [out],
    normalised row by row. *)
Theorem Network_is_the_handwritten_network :
  forall (input W1 B1 W2 B2 : tensor R) (N : nat),
    shape input = (N, 784%nat) ->
    shape W1 = (784%nat, 256%nat) -> shape B1 = (1%nat, 256%nat) ->
    shape W2 = (256%nat, 10%nat) -> shape B2 = (1%nat, 10%nat) ->
    exists o p,
      Notebook.out input W1 B1 W2 B2 = Ok o /\
      Notebook.Network.forward
        (Notebook.Network.init (fun c k => item W1 k c) (fun c => item B1 O c)
           (fun c k => item W2 k c) (fun c => item B2 O c)) input = Ok p /\
      shape p = shape o /\
      forall i j, (i < N)%nat -> (j < 10)%nat ->
        item p i j
        = exp (item o i j) / rsum 10 (fun c => exp (item o i c)).
Proof.
  intros input W1 B1 W2 B2 N Hx HW1 HB1 HW2 HB2.
  destruct (@out_ok _ _ _ _ _ _ _ _ _ Hx HW1 HB1 HW2 HB2) as (o & Eo & So).
  destruct (@linear_ok _ _ _ _ _ _ Hx HW1 HB1) as (y & Ey & Sy & Iy).
  destruct (@h_ok _ _ _ _ _ _ Hx HW1 HB1) as (y' & Ey' & Eh & Sh).
  assert (y' = y) by congruence. subst y'.
  destruct (@linear_ok _ _ _ _ _ _ Sh HW2 HB2) as (o' & Eo' & _ & Io).
  assert (o' = o).
  { unfold Notebook.out in Eo. rewrite Eh in Eo. cbn [bind] in Eo.
    congruence. }
  subst o'.
  assert (Io' : forall i j, (i < N)%nat -> (j < 10)%nat ->
            item o i j
            = rsum 256
                (fun k => logistic (rsum 784
                                      (fun m => item input i m * item W1 m k)
                                    + item B1 O k) * item W2 k j)
              + item B2 O j).
  { intros i j Hi Hj. rewrite (Io i j Hi Hj). f_equal.
    apply rsum_ext. intros k Hk.
    change (item (Notebook.activation y) i k) with (logistic (item y i k)).
    rewrite (Iy i k Hi Hk). reflexivity. }
  destruct (@Network_forward_items (fun c k => item W1 k c)
              (fun c => item B1 O c) (fun c k => item W2 k c)
              (fun c => item B2 O c) input N Hx) as (p & Ep & Sp & Ip).
  exists o, p. split; [exact Eo|]. split; [exact Ep|].
  split; [congruence|].
  intros i j Hi Hj. rewrite (Ip i j Hi Hj).
  rewrite (Io' i j Hi Hj). f_equal.
  apply rsum_ext. intros c Hc. rewrite (Io' i c Hi Hc). reflexivity.
Qed.

Lemma Network_is_the_handwritten_network_witness :
  exists o p,
    Notebook.out (zeros 3 784) (zeros 784 256) (zeros 1 256) (zeros 256 10)
      (zeros 1 10) = Ok o /\
    Notebook.Network.forward
      (Notebook.Network.init (fun c k => item (zeros 784 256) k c)
         (fun c => item (zeros 1 256) O c)
         (fun c k => item (zeros 256 10) k c)
         (fun c => item (zeros 1 10) O c)) (zeros 3 784) = Ok p /\
    shape p = shape o /\
    forall i j, (i < 3)%nat -> (j < 10)%nat ->
      item p i j = exp (item o i j) / rsum 10 (fun c => exp (item o i c)).
Proof.
  apply (@Network_is_the_handwritten_network (zeros 3 784) (zeros 784 256)
           (zeros 1 256) (zeros 256 10) (zeros 1 10) 3); reflexivity.
Defined.



(** [Network.forward] rejects a batch of any other width than 784 with the
    size-mismatch error of its first layer. *)
Theorem Network_forward_rejects_other_widths :
  forall (w_h : nat -> nat -> R) (b_h : nat -> R)
         (w_o : nat -> nat -> R) (b_o : nat -> R) (x : tensor R),
    cols x <> 784%nat ->
    Notebook.Network.forward (Notebook.Network.init w_h b_h w_o b_o) x
    = Raise (SizeMismatch (shape x) (784%nat, 256%nat)).
Proof.
  intros w_h b_h w_o b_o x Hne.
  unfold Notebook.Network.forward, Notebook.Network.init.
  cbn [Notebook.Network.hidden nn.forward nn.Linear_init nn.weight nn.bias].
  rewrite F_linear_mismatch by exact Hne. reflexivity.
Qed.

Lemma Network_forward_rejects_other_widths_witness :
  Notebook.Network.forward
    (Notebook.Network.init (fun _ _ => 0) (fun _ => 0)
       (fun _ _ => 0) (fun _ => 0)) (zeros 64 28)
  = Raise (SizeMismatch (64, 28)%nat (784, 256)%nat).
Proof.
  apply (@Network_forward_rejects_other_widths
           (fun _ _ => 0) (fun _ => 0) (fun _ _ => 0) (fun _ => 0)
           (zeros 64 28)).
  unfold cols, zeros. simpl. lia.
Defined.

(** ** The [nn.Sequential] models *)

(** Running a sequence of modules is running a first part and then the
    rest on its result; an error in the first part is the error of the
    whole. *)
Theorem Sequential_app :
  forall (ms1 ms2 : list nn.module) (x : tensor R),
    nn.Sequential (ms1 ++ ms2) x
    = (y <- nn.Sequential ms1 x ;; nn.Sequential ms2 y).
Proof.
  induction ms1 as [|m ms1 IH]; intros ms2 x; [reflexivity|].
  cbn [app nn.Sequential].
  destruct (nn.forward m x) as [y|e]; cbn [bind]; [apply IH | reflexivity].
Qed.



(** *** Named layers *)

Section OrderedDicts.

Variable V : Type.

Lemma od_set_fresh (d : list (string * V)) (k : string) (v : V) :
  ~ In k (map fst d) -> nn.od_set d k v = d ++ [(k, v)].
Proof.
  induction d as [|[k' v'] d IH]; intros Hk; [reflexivity|].
  cbn [nn.od_set]. cbn [map fst In] in Hk.
  destruct (String.eqb_spec k' k) as [->|_]; [tauto|].
  rewrite IH by tauto. reflexivity.
Qed.

Lemma od_set_keys_in (d : list (string * V)) (k : string) (v : V) (a : string) :
  In a (map fst (nn.od_set d k v)) -> a = k \/ In a (map fst d).
Proof.
  induction d as [|[k' v'] d IH]; cbn [nn.od_set map fst In].
  - intros [H|[]]. left. symmetry. exact H.
  - destruct (String.eqb_spec k' k) as [->|_]; cbn [map fst In].
    + tauto.
    + intros [H|H]; [tauto|]. destruct (IH H); tauto.
Qed.

Lemma od_set_NoDup (d : list (string * V)) (k : string) (v : V) :
  NoDup (map fst d) -> NoDup (map fst (nn.od_set d k v)).
Proof.
  induction d as [|[k' v'] d IH]; cbn [nn.od_set map fst]; intros ND.
  - constructor; [intros [] | constructor].
  - inversion ND as [|? ? Hn ND']; subst.
    destruct (String.eqb_spec k' k) as [->|Hne]; cbn [map fst].
    + constructor; assumption.
    + constructor; [|apply IH; exact ND'].
      intros Hin. apply od_set_keys_in in Hin. destruct Hin; [congruence|tauto].
Qed.

Lemma fold_od_set_distinct (l d : list (string * V)) :
  NoDup (map fst (d ++ l)) ->
  fold_left (fun d kv => nn.od_set d (fst kv) (snd kv)) l d = d ++ l.
Proof.
  revert d. induction l as [|[k v] l IH]; intros d ND; cbn [fold_left].
  - rewrite app_nil_r. reflexivity.
  - cbn [fst snd].
    assert (Hk : ~ In k (map fst d)).
    { rewrite map_app in ND. cbn [map fst] in ND.
      apply NoDup_remove_2 in ND. intros Hin. apply ND.
      apply in_or_app. left. exact Hin. }
    rewrite (@od_set_fresh d k v Hk).
    rewrite IH by (rewrite <- app_assoc; exact ND).
    rewrite <- app_assoc. reflexivity.
Qed.

Lemma fold_od_set_NoDup (l d : list (string * V)) :
  NoDup (map fst d) ->
  NoDup (map fst (fold_left (fun d kv => nn.od_set d (fst kv) (snd kv)) l d)).
Proof.
  revert d. induction l as [|[k v] l IH]; intros d ND; cbn [fold_left].
  - exact ND.
  - apply IH. apply od_set_NoDup. exact ND.
Qed.

End OrderedDicts.

(** An [OrderedDict] built from pairs whose names are all different keeps
    every pair, in the order given; whatever the pairs, no name occurs
    twice in the result, so an operation listed under a name already used
    does not become a further layer. *)
Theorem OrderedDict_names :
  forall (V : Type) (l : list (string * V)),
    NoDup (map fst (nn.OrderedDict l)) /\
    (length (nn.OrderedDict l) <= length l)%nat /\
    (NoDup (map fst l) -> nn.OrderedDict l = l).
Proof.
  intros V l. unfold nn.OrderedDict. split; [|split].
  - apply fold_od_set_NoDup. constructor.
  - assert (G : forall (l d : list (string * V)),
               (length (fold_left
                          (fun d kv => nn.od_set d (fst kv) (snd kv)) l d)
                <= length d + length l)%nat).
    { clear l. induction l as [|[k v] l IH]; intros d; cbn [fold_left].
      - lia.
      - specialize (IH (nn.od_set d k v)). cbn [fst snd length].
        assert (length (nn.od_set d k v) <= S (length d))%nat.
        { clear IH. induction d as [|[k' v'] d IHd]; cbn [nn.od_set length].
          - lia.
          - destruct (String.eqb k' k); cbn [length]; lia. }
        lia. }
    specialize (G l []). cbn [length] in G. lia.
  - intros ND. apply (@fold_od_set_distinct V l []). exact ND.
Qed.

(** In a model whose layers have different names, the layer at position
    [i] is the layer registered under the name at position [i]:
    [model[i]] and [model.name] are the same module. *)
Theorem named_layer_by_name_or_index :
  forall (children : list (string * nn.module)) (i : nat) (k : string)
         (m : nn.module),
    NoDup (map fst children) ->
    nth_error children i = Some (k, m) ->
    nn.getattr children k = Some m /\ nn.getitem children i = Some m.
Proof.
  intros children i k m ND Hn. split.
  - revert i ND Hn.
    induction children as [|[k0 m0] rest IH]; intros i ND Hn.
    + destruct i; discriminate.
    + cbn [nn.getattr]. destruct i as [|i]; cbn [nth_error] in Hn.
      * injection Hn as -> ->. rewrite String.eqb_refl. reflexivity.
      * cbn [map fst] in ND. inversion ND as [|? ? Hnot ND']; subst.
        destruct (String.eqb_spec k0 k) as [->|_].
        -- exfalso. apply Hnot.
           apply nth_error_In in Hn.
           apply (in_map fst) in Hn. exact Hn.
        -- apply (IH i ND' Hn).
  - unfold nn.getitem.
    apply (map_nth_error snd) in Hn. exact Hn.
Qed.

Lemma named_layer_by_name_or_index_witness :
  nn.getattr (Notebook.model_named (fun _ _ => 0) (fun _ => 0) (fun _ _ => 0)
                (fun _ => 0) (fun _ _ => 0) (fun _ => 0)) "fc1"%string
  = Some (nn.MLinear (nn.Linear_init 784 128 (fun _ _ => 0) (fun _ => 0))) /\
  nn.getitem (Notebook.model_named (fun _ _ => 0) (fun _ => 0) (fun _ _ => 0)
                (fun _ => 0) (fun _ _ => 0) (fun _ => 0)) 0
  = Some (nn.MLinear (nn.Linear_init 784 128 (fun _ _ => 0) (fun _ => 0))).
Proof.
  apply (@named_layer_by_name_or_index
           (Notebook.model_named (fun _ _ => 0) (fun _ => 0) (fun _ _ => 0)
              (fun _ => 0) (fun _ _ => 0) (fun _ => 0)) 0 "fc1"%string).
  - apply (@fold_od_set_NoDup nn.module _ []). constructor.
  - reflexivity.
Defined.


(** The cells that read and initialise [model.fc1] need a model with a
    layer of that name: neither [Network] class has one, so the attribute
    lookup fails there, while the model built from the [OrderedDict]
    answers with its first linear layer, of 784 inputs and 128 outputs. *)
Theorem fc1_attribute :
  forall (self : Notebook.Network.t) (self' : Notebook.YourTurn.t)
         (w1 : nat -> nat -> R) (b1 : nat -> R)
         (w2 : nat -> nat -> R) (b2 : nat -> R)
         (w3 : nat -> nat -> R) (b3 : nat -> R),
    nn.getattr (Notebook.Network_children self) "fc1"%string = None /\
    nn.getattr (Notebook.YourTurn_children self') "fc1"%string = None /\
    nn.getattr (Notebook.model_named w1 b1 w2 b2 w3 b3) "fc1"%string
    = Some (nn.MLinear (nn.Linear_init 784 128 w1 b1)).
Proof.
  intros. split; [reflexivity|]. split; reflexivity.
Qed.

(** ** A uniform output and the empty batch *)




(** On an empty batch the hand-written network still returns a batch, of
    shape [(0, 10)], but the softmax applied to it raises. *)
Theorem probabilities_fail_on_empty_batch :
  forall (input W1 B1 W2 B2 : tensor R) (D_in D_h D_out : nat),
    shape input = (O, D_in) -> shape W1 = (D_in, D_h) ->
    shape B1 = (1%nat, D_h) -> shape W2 = (D_h, D_out) ->
    shape B2 = (1%nat, D_out) ->
    (exists o, Notebook.out input W1 B1 W2 B2 = Ok o /\
               shape o = (O, D_out)) /\
    Notebook.probabilities input W1 B1 W2 B2 = Raise (AmbiguousView O).
Proof.
  intros input W1 B1 W2 B2 D_in D_h D_out Hx HW1 HB1 HW2 HB2.
  destruct (@out_ok _ _ _ _ _ _ _ _ _ Hx HW1 HB1 HW2 HB2) as (o & Eo & So).
  split; [exists o; split; assumption|].
  unfold Notebook.probabilities. rewrite Eo. cbn [bind].
  apply softmax_empty. unfold rows. rewrite So. reflexivity.
Qed.

Lemma probabilities_fail_on_empty_batch_witness :
  (exists o, Notebook.out (zeros 0 784) (zeros 784 256) (zeros 1 256)
               (zeros 256 10) (zeros 1 10) = Ok o /\
             shape o = (0, 10)%nat) /\
  Notebook.probabilities (zeros 0 784) (zeros 784 256) (zeros 1 256)
    (zeros 256 10) (zeros 1 10) = Raise (AmbiguousView O).
Proof.
  apply (@probabilities_fail_on_empty_batch (zeros 0 784) (zeros 784 256)
           (zeros 1 256) (zeros 256 10) (zeros 1 10) 784 256 10);
    reflexivity.
Defined.

Lemma OrderedDict_names_witness :
  nn.OrderedDict [("fc1", 1%nat); ("relu1", 2%nat); ("fc2", 3%nat)]%string
  = [("fc1", 1%nat); ("relu1", 2%nat); ("fc2", 3%nat)]%string.
Proof.
  apply (@OrderedDict_names nat
           [("fc1", 1%nat); ("relu1", 2%nat); ("fc2", 3%nat)]%string).
  repeat constructor; simpl; intuition discriminate.
Defined.
